(** * go-jplaw-api-v2: the client generator's naming engine and type resolver,
      and the generated client's query and error handling.

    A shallow embedding of [cmd/clientgen/openapi.go] and [client.go].
    Go strings are byte sequences: they are modelled as [string], whose
    characters ([ascii]) are the bytes.  Runes are [Z].  The functions of
    Go's standard library that the sources call ([strings], [unicode],
    [unicode/utf8], [net/url], [fmt], [sort]) are modelled in modules of
    their own, named after the package. *)

From stdpp Require Import gmap strings list sorting.
From Stdlib Require Import ZArith String Ascii DecimalString.

Set Warnings "-register-all".

Local Open Scope Z_scope.

(** ** Bytes *)

Definition byte_val (c : ascii) : Z := Z.of_N (N_of_ascii c).

(** Go's conversion [byte(x)] keeps the low eight bits. *)
Definition byte_of (z : Z) : ascii := ascii_of_N (Z.to_N (z mod 256)).

Fixpoint string_map (f : ascii → ascii) (s : string) : string :=
  match s with
  | EmptyString => EmptyString
  | String c s' => String (f c) (string_map f s')
  end.

Fixpoint string_forallb (p : ascii → bool) (s : string) : bool :=
  match s with
  | EmptyString => true
  | String c s' => p c && string_forallb p s'
  end.

Fixpoint string_take (n : nat) (s : string) : string :=
  match n, s with
  | S n', String c s' => String c (string_take n' s')
  | _, _ => EmptyString
  end.

Fixpoint string_drop (n : nat) (s : string) : string :=
  match n, s with
  | S n', String _ s' => string_drop n' s'
  | _, _ => s
  end.

(** ** Package unicode/utf8 *)

Module Utf8.

Definition RuneError : Z := 0xFFFD.
Definition RuneSelf : Z := 0x80.
Definition MaxRune : Z := 0x10FFFF.
Definition surrogateMin : Z := 0xD800.
Definition surrogateMax : Z := 0xDFFF.

(** The table [first] of utf8.go with [acceptRanges] inlined: for a leading
    byte, the length of the sequence and the range accepted for the second
    byte.  [None] stands for the entries [as] (ASCII) and [xx] (invalid). *)
Definition first (b : Z) : option (nat * Z * Z) :=
  if b <? 0xC2 then None
  else if b <=? 0xDF then Some (2%nat, 0x80, 0xBF)
  else if b =? 0xE0 then Some (3%nat, 0xA0, 0xBF)
  else if b <=? 0xEC then Some (3%nat, 0x80, 0xBF)
  else if b =? 0xED then Some (3%nat, 0x80, 0x9F)
  else if b <=? 0xEF then Some (3%nat, 0x80, 0xBF)
  else if b =? 0xF0 then Some (4%nat, 0x90, 0xBF)
  else if b <=? 0xF3 then Some (4%nat, 0x80, 0xBF)
  else if b =? 0xF4 then Some (4%nat, 0x80, 0x8F)
  else None.

Definition between (lo hi : Z) (c : ascii) : bool :=
  (lo <=? byte_val c) && (byte_val c <=? hi).

(** [utf8.DecodeRuneInString]: the rune at the head of [s] and its width in
    bytes; [(RuneError, 0)] on the empty string, [(RuneError, 1)] on an
    invalid or truncated sequence.  [for ... range s] decodes the same
    way. *)
Definition DecodeRuneInString (s : string) : Z * nat :=
  match s with
  | EmptyString => (RuneError, 0%nat)
  | String s0 t0 =>
      if byte_val s0 <? RuneSelf then (byte_val s0, 1%nat)
      else
        match first (byte_val s0) with
        | None => (RuneError, 1%nat)
        | Some (sz, lo, hi) =>
            match t0 with
            | EmptyString => (RuneError, 1%nat)
            | String s1 t1 =>
                if negb (between lo hi s1) then (RuneError, 1%nat)
                else if (sz <=? 2)%nat then
                  (Z.lor (Z.shiftl (Z.land (byte_val s0) 0x1F) 6)
                         (Z.land (byte_val s1) 0x3F), 2%nat)
                else
                  match t1 with
                  | EmptyString => (RuneError, 1%nat)
                  | String s2 t2 =>
                      if negb (between 0x80 0xBF s2) then (RuneError, 1%nat)
                      else if (sz <=? 3)%nat then
                        (Z.lor (Z.lor (Z.shiftl (Z.land (byte_val s0) 0x0F) 12)
                                      (Z.shiftl (Z.land (byte_val s1) 0x3F) 6))
                               (Z.land (byte_val s2) 0x3F), 3%nat)
                      else
                        match t2 with
                        | EmptyString => (RuneError, 1%nat)
                        | String s3 _ =>
                            if negb (between 0x80 0xBF s3) then (RuneError, 1%nat)
                            else
                              (Z.lor (Z.lor (Z.lor
                                 (Z.shiftl (Z.land (byte_val s0) 0x07) 18)
                                 (Z.shiftl (Z.land (byte_val s1) 0x3F) 12))
                                 (Z.shiftl (Z.land (byte_val s2) 0x3F) 6))
                                 (Z.land (byte_val s3) 0x3F), 4%nat)
                        end
                  end
            end
        end
  end.

(** The iteration of [for i, c := range s]: every rune with the bytes it was
    decoded from.  Each step consumes at least one byte, so [length s] steps
    are enough. *)
Fixpoint range_loop (fuel : nat) (s : string) : list (Z * string) :=
  match fuel, s with
  | O, _ | _, EmptyString => []
  | S fuel', String _ _ =>
      let '(r, n) := DecodeRuneInString s in
      (r, string_take n s) :: range_loop fuel' (string_drop n s)
  end.

Definition range (s : string) : list (Z * string) :=
  range_loop (String.length s) s.

Definition cont (r : Z) : ascii := byte_of (Z.lor 0x80 (Z.land r 0x3F)).

(** [utf8.AppendRune] on a rune [0 <= r]: runes above [MaxRune] and
    surrogates are written as [RuneError]. *)
Definition encode3 (r : Z) : string :=
  String (byte_of (Z.lor 0xE0 (Z.shiftr r 12)))
    (String (cont (Z.shiftr r 6)) (String (cont r) EmptyString)).

Definition EncodeRune (r : Z) : string :=
  if r <? RuneSelf then String (byte_of r) EmptyString
  else if r <=? 0x7FF then
    String (byte_of (Z.lor 0xC0 (Z.shiftr r 6))) (String (cont r) EmptyString)
  else if (MaxRune <? r) || ((surrogateMin <=? r) && (r <=? surrogateMax)) then
    encode3 RuneError
  else if r <=? 0xFFFF then encode3 r
  else
    String (byte_of (Z.lor 0xF0 (Z.shiftr r 18)))
      (String (cont (Z.shiftr r 12))
         (String (cont (Z.shiftr r 6)) (String (cont r) EmptyString))).

End Utf8.

(** ** Package unicode *)

(** [unicode.To(UpperCase, r)] and [unicode.To(LowerCase, r)] look [r] up in
    the table [unicode.CaseRanges], which is data of Go's library.  The
    development is parametric in the two lookups. *)
Class CaseRanges := {
  To_UpperCase : Z → Z;
  To_LowerCase : Z → Z
}.

Module Unicode.

Definition MaxASCII : Z := 0x7F.

Definition ToUpper `{CaseRanges} (r : Z) : Z :=
  if r <=? MaxASCII then
    if (0x61 <=? r) && (r <=? 0x7A) then r - 0x20 else r
  else To_UpperCase r.

Definition ToLower `{CaseRanges} (r : Z) : Z :=
  if r <=? MaxASCII then
    if (0x41 <=? r) && (r <=? 0x5A) then r + 0x20 else r
  else To_LowerCase r.

End Unicode.

(** ** Package strings *)

Module GoStrings.

Definition isASCII (s : string) : bool :=
  string_forallb (λ c, byte_val c <? Utf8.RuneSelf) s.

Definition upper_byte (c : ascii) : ascii :=
  if (0x61 <=? byte_val c) && (byte_val c <=? 0x7A)
  then byte_of (byte_val c - 0x20) else c.

Definition lower_byte (c : ascii) : ascii :=
  if (0x41 <=? byte_val c) && (byte_val c <=? 0x5A)
  then byte_of (byte_val c + 0x20) else c.

(** [strings.Map]: every rune of [s] is replaced by its image, a negative
    image is dropped, and a byte that is not valid UTF-8 is read as
    [RuneError], so that it is written back as the three bytes of U+FFFD. *)
Definition Map (mapping : Z → Z) (s : string) : string :=
  String.concat ""
    (map (λ rc : Z * string,
            let r := mapping rc.1 in
            if 0 <=? r then Utf8.EncodeRune r else EmptyString)
         (Utf8.range s)).

(** [strings.ToUpper] and [strings.ToLower]: strings of ASCII bytes are
    converted byte by byte, the others through [Map]. *)
Definition ToUpper `{CaseRanges} (s : string) : string :=
  if isASCII s then string_map upper_byte s else Map Unicode.ToUpper s.

Definition ToLower `{CaseRanges} (s : string) : string :=
  if isASCII s then string_map lower_byte s else Map Unicode.ToLower s.

(** [strings.FieldsFunc]: the maximal runs of runes that do not satisfy [f].
    [start] is the field being read, if any. *)
Fixpoint FieldsFunc_loop (f : Z → bool) (rs : list (Z * string))
    (start : option string) : list string :=
  match rs with
  | [] => match start with Some w => [w] | None => [] end
  | (r, bytes) :: rs' =>
      if f r then
        match start with
        | Some w => w :: FieldsFunc_loop f rs' None
        | None => FieldsFunc_loop f rs' None
        end
      else
        FieldsFunc_loop f rs'
          (Some (match start with Some w => w +:+ bytes | None => bytes end))
  end.

Definition FieldsFunc (s : string) (f : Z → bool) : list string :=
  FieldsFunc_loop f (Utf8.range s) None.

(** [strings.Join]. *)
Definition Join (elems : list string) (sep : string) : string :=
  String.concat sep elems.

(** [strings.Split(s, sep)] for a separator of one byte: the pieces of [s]
    between the occurrences of [sep], at least one piece. *)
Fixpoint Split (s : string) (sep : ascii) : list string :=
  match s with
  | EmptyString => [EmptyString]
  | String c s' =>
      if Ascii.eqb c sep then EmptyString :: Split s' sep
      else
        match Split s' sep with
        | [] => [String c EmptyString]
        | p :: ps => String c p :: ps
        end
  end.

(** [strings.ReplaceAll(s, old, new)] for [old] and [new] of one byte. *)
Definition ReplaceAll (s : string) (old new : ascii) : string :=
  string_map (λ c, if Ascii.eqb c old then new else c) s.

(** [strings.HasPrefix]. *)
Fixpoint HasPrefix (s prefix : string) : bool :=
  match prefix, s with
  | EmptyString, _ => true
  | String _ _, EmptyString => false
  | String p prefix', String c s' => Ascii.eqb c p && HasPrefix s' prefix'
  end.

End GoStrings.

(** ** cmd/clientgen/openapi.go: the naming engine *)

(** The Go conversion [string(b)] of a byte: the UTF-8 encoding of the code
    point [b]. *)
Definition string_of_byte (b : ascii) : string := Utf8.EncodeRune (byte_val b).

Definition is_separator (c : Z) : bool :=
  (c =? 0x5F) || (c =? 0x2D) || (c =? 0x20).

(** The body of the loop of [toPascalCase]:
    [strings.ToUpper(string(word[0])) + strings.ToLower(word[1:])]. *)
Definition capitalize `{CaseRanges} (word : string) : string :=
  match word with
  | EmptyString => EmptyString
  | String w0 rest =>
      GoStrings.ToUpper (string_of_byte w0) +:+ GoStrings.ToLower rest
  end.

Definition toPascalCase `{CaseRanges} (s : string) : string :=
  if String.eqb s "" then ""
  else
    let words := GoStrings.FieldsFunc s is_separator in
    GoStrings.Join (map capitalize words) "".

Definition toCamelCase `{CaseRanges} (s : string) : string :=
  if String.eqb s "" then ""
  else
    match toPascalCase s with
    | EmptyString => ""
    | String pascal0 rest => GoStrings.ToLower (string_of_byte pascal0) +:+ rest
    end.

(** The loop of [toSnakeCase]: [i] is the offset of the rune in the string,
    [result] the contents of the builder. *)
Fixpoint toSnakeCase_loop (rs : list (Z * string)) (i : nat) (result : string) : string :=
  match rs with
  | [] => result
  | (r, bytes) :: rs' =>
      let result :=
        if (0 <? i)%nat && ((0x41 <=? r) && (r <=? 0x5A)) then result +:+ "_"
        else result in
      toSnakeCase_loop rs' (i + String.length bytes) (result +:+ Utf8.EncodeRune r)
  end.

Definition toSnakeCase `{CaseRanges} (s : string) : string :=
  GoStrings.ToLower (toSnakeCase_loop (Utf8.range s) 0 "").

(** ** cmd/clientgen/openapi.go: the specification model *)

(** A value decoded by the YAML parser into [interface{}]. *)
Inductive yaml_value :=
  | YNull
  | YBool (b : bool)
  | YInt (n : Z)
  | YString (s : string)
  | YList (l : list yaml_value).

Inductive Schema := mkSchema {
  Type_ : string;
  Format : string;
  Description : string;
  Properties : gmap string Schema;
  Items : option Schema;
  Enum : list yaml_value;
  Required : list string;
  Ref : string;
  Example : option yaml_value;
  AllOf : list Schema;
  OneOf : list Schema;
  AnyOf : list Schema
}.

Record Info := mkInfo {
  Title : string;
  InfoDescription : string;
  Version : string
}.

Record Server := mkServer { URL : string }.

Record Parameter_ := mkParameter {
  Name : string;
  In_ : string;
  ParameterDescription : string;
  ParameterRequired : bool;
  ParameterSchema : option Schema
}.

Record MediaType := mkMediaType { MediaTypeSchema : option Schema }.

Record RequestBody := mkRequestBody {
  RequestBodyDescription : string;
  RequestBodyRequired : bool;
  RequestBodyContent : gmap string MediaType
}.

Record Response := mkResponse {
  ResponseDescription : string;
  Content : gmap string MediaType
}.

Record Operation := mkOperation {
  OperationID : string;
  Summary : string;
  OperationDescription : string;
  Tags : list string;
  Parameters : list Parameter_;
  OperationRequestBody : option RequestBody;
  Responses : gmap string Response
}.

Record PathItem := mkPathItem {
  Get : option Operation;
  Post : option Operation;
  Put : option Operation;
  Delete : option Operation
}.

Record Components := mkComponents { Schemas : gmap string Schema }.

Record OpenAPISpec := mkOpenAPISpec {
  OpenAPI : string;
  SpecInfo : Info;
  Servers : list Server;
  Paths : gmap string PathItem;
  SpecComponents : Components
}.

(** ** cmd/clientgen/openapi.go: the type resolver *)

(** [parts := strings.Split(ref, "/"); toPascalCase(parts[len(parts)-1])].
    [Split] returns at least one piece, so the index is in range. *)
Definition last_segment (ref : string) : string :=
  default "" (last (GoStrings.Split ref "/")).

Definition ref_type_name `{CaseRanges} (ref : string) : string :=
  toPascalCase (last_segment ref).

(** The loop over [s.AllOf]: the value it returns, if it returns. *)
Fixpoint allOf_loop `{CaseRanges} (members : list Schema) : option string :=
  match members with
  | [] => None
  | schema :: members' =>
      if negb (String.eqb (Ref schema) "") then Some (ref_type_name (Ref schema))
      else allOf_loop members'
  end.

(** The [switch s.Type] of [GoType], given the resolution of [s.Items]. *)
Definition type_switch (s : Schema) (items : option string) : string :=
  if String.eqb (Type_ s) "string" then
    if (0 <? List.length (Enum s))%nat then "string"
    else if String.eqb (Format s) "date-time" then "DateTime"
    else if String.eqb (Format s) "date" then "Date"
    else "string"
  else if String.eqb (Type_ s) "integer" then
    if String.eqb (Format s) "int32" then "int32"
    else if String.eqb (Format s) "int64" then "int64"
    else "int"
  else if String.eqb (Type_ s) "number" then
    if String.eqb (Format s) "float" then "float32"
    else if String.eqb (Format s) "double" then "float64"
    else "float64"
  else if String.eqb (Type_ s) "boolean" then "bool"
  else if String.eqb (Type_ s) "array" then
    match items with
    | Some t => "[]" +:+ t
    | None => "[]interface{}"
    end
  else if String.eqb (Type_ s) "object" then
    if (size (Properties s) =? 0)%nat then "map[string]interface{}"
    else "interface{}"
  else "interface{}".

Fixpoint GoType `{CaseRanges} (s : Schema) : string :=
  if negb (String.eqb (Ref s) "") then ref_type_name (Ref s)
  else
    match (if (0 <? List.length (AllOf s))%nat then allOf_loop (AllOf s) else None) with
    | Some name => name
    | None =>
        type_switch s
          match Items s with
          | Some items => Some (GoType items)
          | None => None
          end
    end.

Fixpoint IsRequired_loop (required : list string) (fieldName : string) : bool :=
  match required with
  | [] => false
  | req :: required' =>
      if String.eqb req fieldName then true else IsRequired_loop required' fieldName
  end.

Definition IsRequired (s : Schema) (fieldName : string) : bool :=
  IsRequired_loop (Required s) fieldName.

(** ** cmd/clientgen/openapi.go: traversal order and method names *)

(** [sort.Strings]: ascending in the byte-wise order of Go strings.  Its
    result is the only sorted rearrangement of its argument
    ([sorted_rearrangement_unique] below), whatever the algorithm. *)
Definition sort_Strings (names : list string) : list string :=
  merge_sort String.le names.

(** [for k := range m] visits every key of [m] once, in an order that Go
    leaves unspecified and changes from one run to the next: [order] is the
    rearrangement that the runtime applies to the keys. *)
Definition range_keys {V} (order : list string → list string)
    (m : gmap string V) : list string :=
  order (map_to_list m).*1.

(** What is known of the runtime's order: a rearrangement. *)
Definition rearranges (order : list string → list string) : Prop :=
  ∀ l, order l ≡ₚ l.

(** [var names []string; for name := range m { names = append(names, name) }] *)
Definition append_keys (visited : list string) : list string :=
  foldl (λ names name, names ++ [name]) [] visited.

Definition GetSortedSchemas (order : list string → list string)
    (spec : OpenAPISpec) : list string :=
  let names := append_keys (range_keys order (Schemas (SpecComponents spec))) in
  sort_Strings names.

Definition GetSortedPaths (order : list string → list string)
    (spec : OpenAPISpec) : list string :=
  let paths := append_keys (range_keys order (Paths spec)) in
  sort_Strings paths.

Definition GetMethodName `{CaseRanges} (op : Operation) : string :=
  if negb (String.eqb (OperationID op) "") then
    toPascalCase (GoStrings.ReplaceAll (OperationID op) "-" "_")
  else "UnknownOperation".

(** [for code, response := range m]: the entries of [m] in the order in which
    the runtime visits its keys. *)
Definition range_items {V} (order : list string → list string)
    (m : gmap string V) : list (string * V) :=
  omap (λ code, (λ response, (code, response)) <$> m !! code) (range_keys order m).

Fixpoint GetSuccessResponse_loop (items : list (string * Response)) : option Response :=
  match items with
  | [] => None
  | (code, response) :: items' =>
      if GoStrings.HasPrefix code "2" then Some response
      else GetSuccessResponse_loop items'
  end.

(** [None] is the [nil] pointer. *)
Definition GetSuccessResponse (order : list string → list string)
    (op : Operation) : option Response :=
  GetSuccessResponse_loop (range_items order (Responses op)).

(** ** Package fmt *)

(** A Go [error] is modelled by its message. *)
Abbreviation error := string (only parsing).

(** [fmt.Sprintf("%d", n)]. *)
Definition Sprintf_d (n : Z) : string := NilZero.string_of_int (Z.to_int n).

(** [fmt.Sprintf("%v", x)] at the type of [x]. *)
Class Formatter (A : Type) := Sprintf_v : A → string.

#[global] Instance string_Formatter : Formatter string := λ s, s.
#[global] Instance int_Formatter : Formatter Z := Sprintf_d.
#[global] Instance bool_Formatter : Formatter bool :=
  λ b, if b then "true" else "false".

(** ** Package net/url *)

Notation "q |> f" := (f q) (at level 50, left associativity, only parsing).

Module Url.

(** [url.Values] is [map[string][]string]. *)
Abbreviation Values := (gmap string (list string)).

(** [v.Set(key, value)]: [v[key] = []string{value}]. *)
Definition Set_ (key value : string) (v : Values) : Values :=
  <[key := [value]]> v.

(** [v.Add(key, value)]: [v[key] = append(v[key], value)]. *)
Definition Add (key value : string) (v : Values) : Values :=
  <[key := default [] (v !! key) ++ [value]]> v.

Definition is_alnum (c : Z) : bool :=
  ((0x61 <=? c) && (c <=? 0x7A)) || ((0x41 <=? c) && (c <=? 0x5A))
  || ((0x30 <=? c) && (c <=? 0x39)).

(** [shouldEscape(c, encodeQueryComponent)]: everything is escaped but the
    unreserved characters. *)
Definition shouldEscape (c : ascii) : bool :=
  let n := byte_val c in
  if is_alnum n then false
  else if (n =? 0x2D) || (n =? 0x5F) || (n =? 0x2E) || (n =? 0x7E) then false
  else true.

Definition upperhex (n : Z) : ascii :=
  if n <? 10 then byte_of (0x30 + n) else byte_of (0x41 + (n - 10)).

(** [url.QueryEscape]. *)
Fixpoint QueryEscape (s : string) : string :=
  match s with
  | EmptyString => EmptyString
  | String c s' =>
      if Ascii.eqb c " " then String "+" (QueryEscape s')
      else if shouldEscape c then
        String "%" (String (upperhex (Z.shiftr (byte_val c) 4))
          (String (upperhex (Z.land (byte_val c) 15)) (QueryEscape s')))
      else String c (QueryEscape s')
  end.

(** The inner loop of [Encode]: the pairs of one key are appended to the
    buffer, each after a ['&'] unless the buffer is empty. *)
Definition Encode_key (keyEscaped : string) (buf : string) (vs : list string) : string :=
  foldl (λ buf v,
           (if (0 <? String.length buf)%nat then buf +:+ "&" else buf)
             +:+ keyEscaped +:+ "=" +:+ QueryEscape v)
        buf vs.

(** [v.Encode()]: the keys are sorted, so the result does not depend on the
    order in which the map is visited. *)
Definition Encode (v : Values) : string :=
  if (size v =? 0)%nat then ""
  else
    let keys := sort_Strings (map_to_list v).*1 in
    foldl (λ buf k, Encode_key (QueryEscape k) buf (default [] (v !! k))) "" keys.

End Url.

(** ** Packages io, net/http and encoding/json *)

Module Http.

(** A response body, by what reading it to the end gives:
    [io.ReadAll(body)] returns the bytes read and the error that stopped the
    reading, if any. *)
Record Reader := mkReader {
  read_bytes : string;
  read_err : option error
}.

Definition ReadAll (r : Reader) : string * option error :=
  (read_bytes r, read_err r).

Record Response := mkResponse {
  StatusCode : Z;
  Body : Reader
}.

(** [json.NewDecoder(body).Decode(&result)] at the type of [result]. *)
Class JsonDecodable (T : Type) := Decode : Reader → error + T.

(** [http.NewRequest("GET", url, nil)] fails on a URL it cannot parse. *)
Class Net := {
  Request : Type;
  NewRequest : string → string → error + Request
}.

(** [http.Client], by what [Do] answers to a request. *)
Record HttpClient `{Net} := mkHttpClient {
  Do : Request → error + Response
}.

End Http.

(** ** client.go *)

Module LawApi.
Import Url Http.

(** The declarations of [types.go] that [client.go] uses: the types of the
    query parameters with their default formatting, and the types of the
    decoded responses. *)
Class TypesGo := {
  DefaultBaseURL : string;
  LawNumEra : Type;
  LawNumType : Type;
  LawType : Type;
  Date : Type;
  CategoryCd : Type;
  ResponseFormat : Type;
  Elm : Type;
  AmendmentType : Type;
  CurrentRevisionStatus : Type;
  Mission : Type;
  RepealStatus : Type;
  KeywordResponse : Type;
  LawDataResponse : Type;
  LawRevisionsResponse : Type;
  LawsResponse : Type;
  LawNumEra_Formatter :: Formatter LawNumEra;
  LawNumType_Formatter :: Formatter LawNumType;
  LawType_Formatter :: Formatter LawType;
  Date_Formatter :: Formatter Date;
  CategoryCd_Formatter :: Formatter CategoryCd;
  ResponseFormat_Formatter :: Formatter ResponseFormat;
  Elm_Formatter :: Formatter Elm;
  AmendmentType_Formatter :: Formatter AmendmentType;
  CurrentRevisionStatus_Formatter :: Formatter CurrentRevisionStatus;
  Mission_Formatter :: Formatter Mission;
  RepealStatus_Formatter :: Formatter RepealStatus;
  KeywordResponse_Json :: JsonDecodable KeywordResponse;
  LawDataResponse_Json :: JsonDecodable LawDataResponse;
  LawRevisionsResponse_Json :: JsonDecodable LawRevisionsResponse;
  LawsResponse_Json :: JsonDecodable LawsResponse
}.

Record Client `{Net} := mkClient {
  baseURL : string;
  httpClient : HttpClient
}.

(** [if params.F != nil { queryParams.Set(key, fmt.Sprintf("%v", *params.F)) }] *)
Definition set_field {A} `{Formatter A} (key : string) (field : option A)
    (queryParams : Values) : Values :=
  match field with
  | Some x => Set_ key (Sprintf_v x) queryParams
  | None => queryParams
  end.

(** [if params.F != nil { for _, v := range *params.F {
      queryParams.Add(key, fmt.Sprintf("%v", v)) } }] *)
Definition add_field {A} `{Formatter A} (key : string) (field : option (list A))
    (queryParams : Values) : Values :=
  match field with
  | Some vs => foldl (λ q v, Add key (Sprintf_v v) q) queryParams vs
  | None => queryParams
  end.

(** [if len(queryParams) > 0 { urlPath += "?" + queryParams.Encode() }] *)
Definition with_query (urlPath : string) (queryParams : Values) : string :=
  if (0 <? size queryParams)%nat then urlPath +:+ "?" +:+ Encode queryParams
  else urlPath.

(** The end of [GetAttachment] and [GetLawFile]: the body as a string. *)
Definition read_string (resp : Response) : option string * option error :=
  let '(body, err) := ReadAll (Body resp) in
  match err with
  | Some e => (None, Some ("failed to read response: " +:+ e))
  | None => (Some body, None)
  end.

(** The end of the other methods: the body decoded as JSON. *)
Definition read_json {T} `{JsonDecodable T} (resp : Response)
    : option T * option error :=
  match Decode (Body resp) with
  | inl e => (None, Some ("failed to decode response: " +:+ e))
  | inr result => (Some result, None)
  end.

(** What every method does with its [urlPath], in the same words in each:
    the request is created and executed, a status of 400 or more is
    returned as an error with the body, and otherwise the body is read by
    [read]. *)
Definition execute {T} `{Net} (c : Client) (urlPath : string)
    (read : Response → option T * option error) : option T * option error :=
  match NewRequest "GET" urlPath with
  | inl err => (None, Some ("failed to create request: " +:+ err))
  | inr req =>
      match Do (httpClient c) req with
      | inl err => (None, Some ("failed to execute request: " +:+ err))
      | inr resp =>
          if 400 <=? StatusCode resp then
            let '(body, _) := ReadAll (Body resp) in
            (None, Some ("API error " +:+ Sprintf_d (StatusCode resp) +:+ ": " +:+ body))
          else read resp
      end
  end.

(** *** The parameter structs *)

Module GetAttachmentParams.
Record t := mk { Src : option string }.
End GetAttachmentParams.

Module GetKeywordParams.
Record t `{TypesGo} := mk {
  Keyword : string;
  LawNum : option string;
  LawNumEra : option LawApi.LawNumEra;
  LawNumNum : option string;
  LawNumType : option LawApi.LawNumType;
  LawNumYear : option Z;
  LawType : option (list LawApi.LawType);
  Asof : option Date;
  CategoryCd : option (list LawApi.CategoryCd);
  PromulgationDateFrom : option Date;
  PromulgationDateTo : option Date;
  Limit : option Z;
  Offset : option Z;
  Order : option string;
  ResponseFormat : option LawApi.ResponseFormat;
  SentencesLimit : option Z;
  SentenceTextSize : option Z;
  HighlightTag : option string
}.
End GetKeywordParams.

Module GetLawDataParams.
Record t `{TypesGo} := mk {
  LawFullTextFormat : option LawApi.ResponseFormat;
  Asof : option Date;
  Elm : option LawApi.Elm;
  OmitAmendmentSupplProvision : option bool;
  IncludeAttachedFileContent : option bool;
  ResponseFormat : option LawApi.ResponseFormat
}.
End GetLawDataParams.

Module GetLawFileParams.
Record t `{TypesGo} := mk { Asof : option Date }.
End GetLawFileParams.

Module GetRevisionsParams.
Record t `{TypesGo} := mk {
  LawTitle : option string;
  LawTitleKana : option string;
  AmendmentDateFrom : option Date;
  AmendmentDateTo : option Date;
  AmendmentLawId : option string;
  AmendmentLawNum : option string;
  AmendmentLawTitle : option string;
  AmendmentLawTitleKana : option string;
  AmendmentPromulgateDateFrom : option Date;
  AmendmentPromulgateDateTo : option Date;
  AmendmentType : option (list LawApi.AmendmentType);
  CategoryCd : option (list LawApi.CategoryCd);
  CurrentRevisionStatus : option (list LawApi.CurrentRevisionStatus);
  Mission : option (list LawApi.Mission);
  RemainInForce : option bool;
  RepealDateFrom : option Date;
  RepealDateTo : option Date;
  RepealStatus : option (list LawApi.RepealStatus);
  UpdatedFrom : option Date;
  UpdatedTo : option Date;
  ResponseFormat : option LawApi.ResponseFormat
}.
End GetRevisionsParams.

Module GetLawsParams.
Record t `{TypesGo} := mk {
  LawId : option string;
  LawNum : option string;
  LawNumEra : option LawApi.LawNumEra;
  LawNumNum : option string;
  LawNumType : option LawApi.LawNumType;
  LawNumYear : option Z;
  LawTitle : option string;
  LawTitleKana : option string;
  LawType : option (list LawApi.LawType);
  AmendmentLawId : option string;
  Asof : option Date;
  CategoryCd : option (list LawApi.CategoryCd);
  Mission : option (list LawApi.Mission);
  OmitCurrentRevisionInfo : option bool;
  PromulgationDateFrom : option Date;
  PromulgationDateTo : option Date;
  RepealStatus : option (list LawApi.RepealStatus);
  Limit : option Z;
  Offset : option Z;
  Order : option string;
  ResponseFormat : option LawApi.ResponseFormat
}.
End GetLawsParams.

(** *** The methods.  For each, the query parameters it collects, the URL it
    requests, and the method itself.  [params] is a pointer in Go: [None] is
    [nil]. *)

Definition GetAttachment_query (params : GetAttachmentParams.t) : Values :=
  ∅ |> set_field "src" (GetAttachmentParams.Src params).

Definition GetAttachment_url `{Net} (c : Client) (lawRevisionId : string)
    (params : option GetAttachmentParams.t) : string :=
  let urlPath := baseURL c +:+ "/attachment" +:+ "/" +:+ lawRevisionId in
  match params with
  | Some p => with_query urlPath (GetAttachment_query p)
  | None => urlPath
  end.

Definition GetAttachment `{Net} (c : Client) (lawRevisionId : string)
    (params : option GetAttachmentParams.t) : option string * option error :=
  execute c (GetAttachment_url c lawRevisionId params) read_string.

Definition GetKeyword_query `{TypesGo} (params : GetKeywordParams.t) : Values :=
  ∅ |> Set_ "keyword" (Sprintf_v (GetKeywordParams.Keyword params))
    |> set_field "law_num" (GetKeywordParams.LawNum params)
    |> set_field "law_num_era" (GetKeywordParams.LawNumEra params)
    |> set_field "law_num_num" (GetKeywordParams.LawNumNum params)
    |> set_field "law_num_type" (GetKeywordParams.LawNumType params)
    |> set_field "law_num_year" (GetKeywordParams.LawNumYear params)
    |> add_field "law_type" (GetKeywordParams.LawType params)
    |> set_field "asof" (GetKeywordParams.Asof params)
    |> add_field "category_cd" (GetKeywordParams.CategoryCd params)
    |> set_field "promulgation_date_from" (GetKeywordParams.PromulgationDateFrom params)
    |> set_field "promulgation_date_to" (GetKeywordParams.PromulgationDateTo params)
    |> set_field "limit" (GetKeywordParams.Limit params)
    |> set_field "offset" (GetKeywordParams.Offset params)
    |> set_field "order" (GetKeywordParams.Order params)
    |> set_field "response_format" (GetKeywordParams.ResponseFormat params)
    |> set_field "sentences_limit" (GetKeywordParams.SentencesLimit params)
    |> set_field "sentence_text_size" (GetKeywordParams.SentenceTextSize params)
    |> set_field "highlight_tag" (GetKeywordParams.HighlightTag params).

Definition GetKeyword_url `{Net, TypesGo} (c : Client)
    (params : option GetKeywordParams.t) : string :=
  let urlPath := baseURL c +:+ "/keyword" in
  match params with
  | Some p => with_query urlPath (GetKeyword_query p)
  | None => urlPath
  end.

Definition GetKeyword `{Net, TypesGo} (c : Client)
    (params : option GetKeywordParams.t) : option KeywordResponse * option error :=
  execute c (GetKeyword_url c params) read_json.

Definition GetLawData_query `{TypesGo} (params : GetLawDataParams.t) : Values :=
  ∅ |> set_field "law_full_text_format" (GetLawDataParams.LawFullTextFormat params)
    |> set_field "asof" (GetLawDataParams.Asof params)
    |> set_field "elm" (GetLawDataParams.Elm params)
    |> set_field "omit_amendment_suppl_provision"
         (GetLawDataParams.OmitAmendmentSupplProvision params)
    |> set_field "include_attached_file_content"
         (GetLawDataParams.IncludeAttachedFileContent params)
    |> set_field "response_format" (GetLawDataParams.ResponseFormat params).

Definition GetLawData_url `{Net, TypesGo} (c : Client) (lawIdOrNumOrRevisionId : string)
    (params : option GetLawDataParams.t) : string :=
  let urlPath := baseURL c +:+ "/law_data" +:+ "/" +:+ lawIdOrNumOrRevisionId in
  match params with
  | Some p => with_query urlPath (GetLawData_query p)
  | None => urlPath
  end.

Definition GetLawData `{Net, TypesGo} (c : Client) (lawIdOrNumOrRevisionId : string)
    (params : option GetLawDataParams.t) : option LawDataResponse * option error :=
  execute c (GetLawData_url c lawIdOrNumOrRevisionId params) read_json.

Definition GetLawFile_query `{TypesGo} (params : GetLawFileParams.t) : Values :=
  ∅ |> set_field "asof" (GetLawFileParams.Asof params).

Definition GetLawFile_url `{Net, TypesGo} (c : Client)
    (lawIdOrNumOrRevisionId fileType : string)
    (params : option GetLawFileParams.t) : string :=
  let urlPath :=
    baseURL c +:+ "/law_file" +:+ "/" +:+ fileType +:+ "/" +:+ lawIdOrNumOrRevisionId in
  match params with
  | Some p => with_query urlPath (GetLawFile_query p)
  | None => urlPath
  end.

Definition GetLawFile `{Net, TypesGo} (c : Client)
    (lawIdOrNumOrRevisionId fileType : string)
    (params : option GetLawFileParams.t) : option string * option error :=
  execute c (GetLawFile_url c lawIdOrNumOrRevisionId fileType params) read_string.

Definition GetRevisions_query `{TypesGo} (params : GetRevisionsParams.t) : Values :=
  ∅ |> set_field "law_title" (GetRevisionsParams.LawTitle params)
    |> set_field "law_title_kana" (GetRevisionsParams.LawTitleKana params)
    |> set_field "amendment_date_from" (GetRevisionsParams.AmendmentDateFrom params)
    |> set_field "amendment_date_to" (GetRevisionsParams.AmendmentDateTo params)
    |> set_field "amendment_law_id" (GetRevisionsParams.AmendmentLawId params)
    |> set_field "amendment_law_num" (GetRevisionsParams.AmendmentLawNum params)
    |> set_field "amendment_law_title" (GetRevisionsParams.AmendmentLawTitle params)
    |> set_field "amendment_law_title_kana"
         (GetRevisionsParams.AmendmentLawTitleKana params)
    |> set_field "amendment_promulgate_date_from"
         (GetRevisionsParams.AmendmentPromulgateDateFrom params)
    |> set_field "amendment_promulgate_date_to"
         (GetRevisionsParams.AmendmentPromulgateDateTo params)
    |> add_field "amendment_type" (GetRevisionsParams.AmendmentType params)
    |> add_field "category_cd" (GetRevisionsParams.CategoryCd params)
    |> add_field "current_revision_status"
         (GetRevisionsParams.CurrentRevisionStatus params)
    |> add_field "mission" (GetRevisionsParams.Mission params)
    |> set_field "remain_in_force" (GetRevisionsParams.RemainInForce params)
    |> set_field "repeal_date_from" (GetRevisionsParams.RepealDateFrom params)
    |> set_field "repeal_date_to" (GetRevisionsParams.RepealDateTo params)
    |> add_field "repeal_status" (GetRevisionsParams.RepealStatus params)
    |> set_field "updated_from" (GetRevisionsParams.UpdatedFrom params)
    |> set_field "updated_to" (GetRevisionsParams.UpdatedTo params)
    |> set_field "response_format" (GetRevisionsParams.ResponseFormat params).

Definition GetRevisions_url `{Net, TypesGo} (c : Client) (lawIdOrNum : string)
    (params : option GetRevisionsParams.t) : string :=
  let urlPath := baseURL c +:+ "/law_revisions" +:+ "/" +:+ lawIdOrNum in
  match params with
  | Some p => with_query urlPath (GetRevisions_query p)
  | None => urlPath
  end.

Definition GetRevisions `{Net, TypesGo} (c : Client) (lawIdOrNum : string)
    (params : option GetRevisionsParams.t)
    : option LawRevisionsResponse * option error :=
  execute c (GetRevisions_url c lawIdOrNum params) read_json.

Definition GetLaws_query `{TypesGo} (params : GetLawsParams.t) : Values :=
  ∅ |> set_field "law_id" (GetLawsParams.LawId params)
    |> set_field "law_num" (GetLawsParams.LawNum params)
    |> set_field "law_num_era" (GetLawsParams.LawNumEra params)
    |> set_field "law_num_num" (GetLawsParams.LawNumNum params)
    |> set_field "law_num_type" (GetLawsParams.LawNumType params)
    |> set_field "law_num_year" (GetLawsParams.LawNumYear params)
    |> set_field "law_title" (GetLawsParams.LawTitle params)
    |> set_field "law_title_kana" (GetLawsParams.LawTitleKana params)
    |> add_field "law_type" (GetLawsParams.LawType params)
    |> set_field "amendment_law_id" (GetLawsParams.AmendmentLawId params)
    |> set_field "asof" (GetLawsParams.Asof params)
    |> add_field "category_cd" (GetLawsParams.CategoryCd params)
    |> add_field "mission" (GetLawsParams.Mission params)
    |> set_field "omit_current_revision_info"
         (GetLawsParams.OmitCurrentRevisionInfo params)
    |> set_field "promulgation_date_from" (GetLawsParams.PromulgationDateFrom params)
    |> set_field "promulgation_date_to" (GetLawsParams.PromulgationDateTo params)
    |> add_field "repeal_status" (GetLawsParams.RepealStatus params)
    |> set_field "limit" (GetLawsParams.Limit params)
    |> set_field "offset" (GetLawsParams.Offset params)
    |> set_field "order" (GetLawsParams.Order params)
    |> set_field "response_format" (GetLawsParams.ResponseFormat params).

Definition GetLaws_url `{Net, TypesGo} (c : Client)
    (params : option GetLawsParams.t) : string :=
  let urlPath := baseURL c +:+ "/laws" in
  match params with
  | Some p => with_query urlPath (GetLaws_query p)
  | None => urlPath
  end.

Definition GetLaws `{Net, TypesGo} (c : Client)
    (params : option GetLawsParams.t) : option LawsResponse * option error :=
  execute c (GetLaws_url c params) read_json.

End LawApi.

(** ** Vocabulary of the statements *)

(** [sub] occurs in [s] as a contiguous run of bytes. *)
Definition contains (s sub : string) : Prop :=
  ∃ pre post, s = pre +:+ sub +:+ post.

(** No byte of [s] is [c]. *)
Definition free_of (c : ascii) (s : string) : Prop :=
  string_forallb (λ x, negb (Ascii.eqb x c)) s = true.

(** Schemas written as in a specification document: the other fields have
    Go's zero value. *)
Definition schema_ref (ref : string) : Schema :=
  mkSchema "" "" "" ∅ None [] [] ref None [] [] [].

Definition schema_type (type format : string) : Schema :=
  mkSchema type format "" ∅ None [] [] "" None [] [] [].

Definition schema_array (items : option Schema) : Schema :=
  mkSchema "array" "" "" ∅ items [] [] "" None [] [] [].

Definition schema_allOf (members : list Schema) : Schema :=
  mkSchema "" "" "" ∅ None [] [] "" None members [] [].

Definition schema_string (format : string) (enum : list yaml_value) : Schema :=
  mkSchema "string" format "" ∅ None enum [] "" None [] [] [].

Definition operation_with_id (id : string) : Operation :=
  mkOperation id "" "" [] [] None ∅.

(** The runes of a string of ASCII bytes: the bytes. *)
Definition ascii_runes (s : string) : list (Z * string) :=
  map (λ c, (byte_val c, String c EmptyString)) (list_ascii_of_string s).

Definition is_sep_byte (c : ascii) : bool := is_separator (byte_val c).

(** An ASCII letter. *)
Definition is_letter (c : ascii) : bool :=
  ((0x41 <=? byte_val c) && (byte_val c <=? 0x5A))
  || ((0x61 <=? byte_val c) && (byte_val c <=? 0x7A)).

Definition is_upper (c : ascii) : bool :=
  (0x41 <=? byte_val c) && (byte_val c <=? 0x5A).

Definition starts_with_letter (w : string) : bool :=
  match w with
  | EmptyString => false
  | String c _ => is_letter c
  end.

Definition starts_with_ascii (w : string) : bool :=
  match w with
  | EmptyString => true
  | String c _ => byte_val c <? Utf8.RuneSelf
  end.

(** A word of ASCII bytes, as [FieldsFunc] returns them: not empty and free
    of separators. *)
Definition ascii_word (w : string) : Prop :=
  w ≠ "" ∧ GoStrings.isASCII w = true
  ∧ string_forallb (λ c, negb (is_sep_byte c)) w = true.

(** [concat] of strings. *)
Definition string_concat (l : list string) : string :=
  foldr String.append EmptyString l.

(** A string given by its bytes. *)
Definition bytes (l : list Z) : string :=
  foldr (λ b s, String (byte_of b) s) EmptyString l.

(** The transformation in the words of the specification: the words between
    the separators, each with its first character in upper case and its
    other characters in lower case, concatenated.  A character is a rune of
    the word, as [range] reads it. *)
Definition capitalize_chars `{CaseRanges} (word : string) : string :=
  match Utf8.range word with
  | [] => EmptyString
  | (_, first) :: _ =>
      GoStrings.ToUpper first
        +:+ GoStrings.ToLower (string_drop (String.length first) word)
  end.

Definition PascalCase_by_characters `{CaseRanges} (s : string) : string :=
  string_concat (map capitalize_chars (GoStrings.FieldsFunc s is_separator)).

(** The result of a method is the failure that carries the status code and
    the body of [resp]: no value, and an error whose message is
    ["API error <code>: <body>"]. *)
Definition api_failure {T} (result : option T * option error)
    (resp : Http.Response) : Prop :=
  ∃ msg,
    result = (None, Some msg)
    ∧ msg = "API error " +:+ Sprintf_d (Http.StatusCode resp) +:+ ": "
              +:+ Http.read_bytes (Http.Body resp)
    ∧ contains msg (Sprintf_d (Http.StatusCode resp))
    ∧ contains msg (Http.read_bytes (Http.Body resp)).

(** The server answers [resp] to the request for [url]. *)
Definition answers `{Http.Net} (c : LawApi.Client) (url : string)
    (resp : Http.Response) : Prop :=
  ∃ req, Http.NewRequest "GET" url = inr req
         ∧ Http.Do (LawApi.httpClient c) req = inr resp.

(** The pair [key=value] of the query string, and the pairs of a repeated
    key, one for each value, joined by ['&']. *)
Definition query_pair (key value : string) : string :=
  key +:+ "=" +:+ Url.QueryEscape value.

Definition repeated_pairs (key : string) (values : list string) : string :=
  String.concat "&" (map (query_pair key) values).

(** All the pairs of [v], in the order of [Encode]. *)
Definition Encode_pairs (v : Url.Values) : list string :=
  flat_map (λ k, map (query_pair (Url.QueryEscape k)) (default [] (v !! k)))
           (sort_Strings (map_to_list v).*1).

(** The sequence-valued field [field] is sent under [key]: the values of
    [key] in the collected parameters are the elements of the field,
    formatted, in their order; the encoded query holds one pair for each,
    next to one another, and so does the URL when there is an element. *)
Definition sent_repeated {A} `{Formatter A} (key : string)
    (field : option (list A)) (queryParams : Url.Values) (url : string) : Prop :=
  ∀ vs, field = Some vs →
    default [] (queryParams !! key) = Sprintf_v <$> vs
    ∧ contains (Url.Encode queryParams) (repeated_pairs key (Sprintf_v <$> vs))
    ∧ (vs ≠ [] → contains url (repeated_pairs key (Sprintf_v <$> vs))).

(** A schema with an empty [$ref] whose [allOf] members, if any, have an
    empty [$ref] too: its type is decided by the type switch. *)
Definition no_reference (s : Schema) : Prop :=
  Ref s = "" ∧ Forall (λ member, Ref member = "") (AllOf s).

(** The names that the type switch returns for a schema that is not an
    array. *)
Definition switch_names : list string :=
  ["string"; "DateTime"; "Date"; "int32"; "int64"; "int"; "float32"; "float64";
   "bool"; "map[string]interface{}"; "interface{}"].

(** The bytes of [s] that satisfy [p]. *)
Fixpoint string_filter (p : ascii → bool) (s : string) : string :=
  match s with
  | EmptyString => EmptyString
  | String c s' => if p c then String c (string_filter p s') else string_filter p s'
  end.

(** What [toSnakeCase] writes to its builder for a string of ASCII bytes: an
    underscore before every upper-case letter but one at the start. *)
Fixpoint snake_raw (start : bool) (s : string) : string :=
  match s with
  | EmptyString => EmptyString
  | String c s' =>
      if negb start && is_upper c then String "_" (String c (snake_raw false s'))
      else String c (snake_raw false s')
  end.

Definition is_lower (c : ascii) : bool :=
  (0x61 <=? byte_val c) && (byte_val c <=? 0x7A).

(** The replacement of bytes that [GetMethodName] asks of [ReplaceAll]. *)
Definition dash_to_underscore (c : ascii) : ascii :=
  if Ascii.eqb c "-" then "_"%char else c.

(** Two runes with their bytes that [FieldsFunc] cannot tell apart: both are
    separators, or neither is and the bytes are the same. *)
Definition same_for_fields (a b : Z * string) : Prop :=
  is_separator b.1 = is_separator a.1
  ∧ (is_separator a.1 = false → b.2 = a.2).

(** An order of visit that starts with the key [code]. *)
Definition first_visited (code : string) (keys : list string) : list string :=
  filter (λ k, k = code) keys ++ filter (λ k, k ≠ code) keys.

(** The beginnings of the messages of the errors that the methods of the
    client return. *)
Definition error_kinds : list string :=
  ["failed to create request: "; "failed to execute request: "; "API error ";
   "failed to read response: "; "failed to decode response: "].

(** A result as Go functions return them: a value and no error, or no value
    and an error, here of one of the kinds above. *)
Definition value_or_error {T} (result : option T * option error) : Prop :=
  (∃ v, result = (Some v, None))
  ∨ (∃ kind detail, kind ∈ error_kinds ∧ result = (None, Some (kind +:+ detail))).

(** The bytes that [QueryEscape] writes: the unreserved characters, ['+']
    and ['%']. *)
Definition query_safe (c : ascii) : bool :=
  Url.is_alnum (byte_val c)
  || (Ascii.eqb c "-" || Ascii.eqb c "_" || Ascii.eqb c "." || Ascii.eqb c "~"
      || Ascii.eqb c "+" || Ascii.eqb c "%").

(** The inverse of [QueryEscape], to show that it loses nothing. *)
Definition unhex (c : ascii) : Z :=
  if byte_val c <? 0x3A then byte_val c - 0x30 else byte_val c - 0x41 + 10.

Fixpoint unescape_query (s : string) : string :=
  match s with
  | EmptyString => EmptyString
  | String c s' =>
      if Ascii.eqb c "+" then String " " (unescape_query s')
      else if Ascii.eqb c "%" then
        match s' with
        | String h (String l s'') =>
            String (byte_of (16 * unhex h + unhex l)) (unescape_query s'')
        | _ => String c (unescape_query s')
        end
      else String c (unescape_query s')
  end.

(** The pair of an optional scalar field, if it is set. *)
Definition field_pair {A} `{Formatter A} (key : string) (field : option A)
    : option string :=
  (λ x, query_pair key (Sprintf_v x)) <$> field.

(** ** Sample values *)

(** The part of [unicode.CaseRanges] for U+0080 to U+00FF (Latin-1
    Supplement), to run the definitions on concrete strings.  Code points
    outside that block are left as they are. *)
#[local] Instance Latin1 : CaseRanges := {|
  To_UpperCase r :=
    if r =? 0xB5 then 0x39C
    else if r =? 0xFF then 0x178
    else if (0xE0 <=? r) && (r <=? 0xFE) && negb (r =? 0xF7) then r - 0x20
    else r;
  To_LowerCase r :=
    if (0xC0 <=? r) && (r <=? 0xDE) && negb (r =? 0xD7) then r + 0x20 else r
|}.

(** A network in which a request is its URL and every URL is accepted, and
    declarations of [types.go] in which every parameter type is a string
    type and every response is kept as its undecoded body. *)
#[local] Instance sample_Net : Http.Net := {|
  Http.Request := string;
  Http.NewRequest method url := inr url
|}.

#[local] Instance sample_Json : Http.JsonDecodable string :=
  λ body, inr (Http.read_bytes body).

#[local] Instance sample_TypesGo : LawApi.TypesGo := {|
  LawApi.DefaultBaseURL := "https://laws.e-gov.go.jp/api/2";
  LawApi.LawNumEra := string;
  LawApi.LawNumType := string;
  LawApi.LawType := string;
  LawApi.Date := string;
  LawApi.CategoryCd := string;
  LawApi.ResponseFormat := string;
  LawApi.Elm := string;
  LawApi.AmendmentType := string;
  LawApi.CurrentRevisionStatus := string;
  LawApi.Mission := string;
  LawApi.RepealStatus := string;
  LawApi.KeywordResponse := string;
  LawApi.LawDataResponse := string;
  LawApi.LawRevisionsResponse := string;
  LawApi.LawsResponse := string
|}.

(** A client whose server answers every request with [resp]. *)
Definition sample_client (resp : Http.Response) : LawApi.Client :=
  LawApi.mkClient _ LawApi.DefaultBaseURL (Http.mkHttpClient _ (λ _, inr resp)).

(** Parameters of [GetLaws] with two law types, two categories and a limit. *)
Definition sample_GetLawsParams : LawApi.GetLawsParams.t :=
  LawApi.GetLawsParams.mk sample_TypesGo None None None None None None None None
    (Some ["a"; "b"]) None None (Some ["011"; "021"]) None None None None None
    (Some 5) None None None.

(** A specification with three schemas and two paths. *)
Definition sample_spec : OpenAPISpec :=
  mkOpenAPISpec "3.0.0" (mkInfo "" "" "") []
    (<["/laws" := mkPathItem None None None None]>
       (<["/keyword" := mkPathItem None None None None]> ∅))
    (mkComponents
       (<["law_type" := schema_type "string" ""]>
          (<["Date" := schema_type "string" "date"]>
             (<["category_cd" := schema_type "string" ""]> ∅)))).

(** An operation with two responses whose code begins with [2] and one
    whose code does not. *)
Definition sample_operation : Operation :=
  mkOperation "get-laws" "" "" [] [] None
    (<["200" := mkResponse "ok" ∅]>
       (<["206" := mkResponse "partial" ∅]>
          (<["404" := mkResponse "not found" ∅]> ∅))).

(** * Properties *)

(** ** Strings as byte sequences *)

Section string_facts.

Lemma string_app_cons (c : ascii) (s1 s2 : string) :
  String c s1 +:+ s2 = String c (s1 +:+ s2).
Proof. reflexivity. Qed.

Lemma string_app_nil_l (s : string) : "" +:+ s = s.
Proof. reflexivity. Qed.

Lemma string_app_nil_r (s : string) : s +:+ "" = s.
Proof.
  induction s as [|c s IH]; [done |].
  by rewrite string_app_cons, IH.
Qed.

Lemma string_app_assoc (s1 s2 s3 : string) :
  (s1 +:+ s2) +:+ s3 = s1 +:+ s2 +:+ s3.
Proof.
  induction s1 as [|c s1 IH]; [done |].
  by rewrite !string_app_cons, IH.
Qed.

Lemma string_app_length (s1 s2 : string) :
  String.length (s1 +:+ s2) = (String.length s1 + String.length s2)%nat.
Proof.
  induction s1 as [|c s1 IH]; [done |].
  rewrite string_app_cons. simpl. by rewrite IH.
Qed.

Lemma string_map_app (f : ascii → ascii) (s1 s2 : string) :
  string_map f (s1 +:+ s2) = string_map f s1 +:+ string_map f s2.
Proof.
  induction s1 as [|c s1 IH]; [done |].
  rewrite string_app_cons. simpl. by rewrite IH.
Qed.

Lemma string_forallb_app (p : ascii → bool) (s1 s2 : string) :
  string_forallb p (s1 +:+ s2) = string_forallb p s1 && string_forallb p s2.
Proof.
  induction s1 as [|c s1 IH]; [done |].
  rewrite string_app_cons. simpl. by rewrite IH, andb_assoc.
Qed.

(** [strings.ReplaceAll] leaves no occurrence of the replaced byte. *)
Lemma ReplaceAll_free_of (s : string) (old new : ascii) :
  old ≠ new → free_of old (GoStrings.ReplaceAll s old new).
Proof.
  intros Hne. unfold GoStrings.ReplaceAll, free_of.
  induction s as [|c s IH]; [done |]. simpl. rewrite IH, andb_true_r.
  destruct (Ascii.eqb c old) eqn:Hc; [| by rewrite Hc].
  apply negb_true_iff, Ascii.eqb_neq. congruence.
Qed.

Lemma contains_refl (s : string) : contains s s.
Proof. exists "", "". by rewrite string_app_nil_r. Qed.

Lemma contains_app_l (s sub pre : string) :
  contains s sub → contains (pre +:+ s) sub.
Proof.
  intros (a & b & ->). exists (pre +:+ a), b.
  by rewrite string_app_assoc.
Qed.

Lemma contains_app_r (s sub post : string) :
  contains s sub → contains (s +:+ post) sub.
Proof.
  intros (a & b & ->). exists a, (b +:+ post).
  by rewrite !string_app_assoc.
Qed.

End string_facts.

(** ** The type resolver *)

Section type_resolver.
Context `{CaseRanges}.

(** [strings.Split] ends with the piece after the last separator. *)
Lemma Split_last (s : string) (sep : ascii) :
  ∃ init x, GoStrings.Split s sep = init ++ [x] ∧ free_of sep x ∧
    ((init = [] ∧ s = x) ∨ (init ≠ [] ∧ ∃ pre, s = pre +:+ String sep x)).
Proof.
  induction s as [|c s IH].
  - exists [], "". simpl. repeat split; auto.
  - destruct IH as (init & x & Hsplit & Hfree & Hshape). simpl.
    destruct (Ascii.eqb c sep) eqn:Hc.
    + apply Ascii.eqb_eq in Hc as ->.
      exists ("" :: init), x. rewrite Hsplit. repeat split; [done |].
      right. split; [done |].
      destruct Hshape as [[_ ->] | [_ [pre ->]]].
      * by exists "".
      * by exists (String sep pre).
    + rewrite Hsplit. destruct Hshape as [[-> ->] | [Hne [pre ->]]].
      * exists [], (String c x). simpl. repeat split.
        -- unfold free_of in *. simpl. by rewrite Hc, Hfree.
        -- by left.
      * destruct init as [|p ps]; [done |]. simpl.
        exists (String c p :: ps), x. repeat split; [done |].
        right. split; [done |]. by exists (String c pre).
Qed.

(** The last segment of a reference is free of ['/'], and the reference is
    that segment alone or ends with ['/'] and that segment. *)
Lemma last_segment_spec (ref : string) :
  free_of "/" (last_segment ref) ∧
  (ref = last_segment ref ∨ ∃ pre, ref = pre +:+ String "/" (last_segment ref)).
Proof.
  unfold last_segment.
  destruct (Split_last ref "/") as (init & x & -> & Hfree & Hshape).
  rewrite last_snoc. simpl. split; [done |].
  destruct Hshape as [[_ ->] | [_ Hpre]]; auto.
Qed.

Lemma GoType_unfold (s : Schema) :
  GoType s =
    if negb (String.eqb (Ref s) "") then ref_type_name (Ref s)
    else
      match (if (0 <? List.length (AllOf s))%nat then allOf_loop (AllOf s) else None) with
      | Some name => name
      | None => type_switch s (GoType <$> Items s)
      end.
Proof. destruct s as [? ? ? ? [?|] ? ? ? ? ? ? ?]; reflexivity. Qed.

Lemma GoType_of_ref (s : Schema) :
  Ref s ≠ "" → GoType s = toPascalCase (last_segment (Ref s)).
Proof.
  intros Href. rewrite GoType_unfold.
  apply String.eqb_neq in Href. by rewrite Href.
Qed.

Lemma allOf_loop_first (pre post : list Schema) (m : Schema) :
  Forall (λ x, Ref x = "") pre → Ref m ≠ "" →
  allOf_loop (pre ++ m :: post) = Some (toPascalCase (last_segment (Ref m))).
Proof.
  intros Hpre Hm. induction Hpre as [|x pre Hx _ IH]; simpl.
  - apply String.eqb_neq in Hm. by rewrite Hm.
  - by rewrite Hx.
Qed.

Lemma allOf_loop_none (members : list Schema) :
  Forall (λ x, Ref x = "") members → allOf_loop members = None.
Proof. induction 1 as [|x l Hx _ IH]; simpl; [done | by rewrite Hx]. Qed.

Lemma GoType_no_ref_no_allOf (s : Schema) :
  Ref s = "" → AllOf s = [] → GoType s = type_switch s (GoType <$> Items s).
Proof. intros Href Hall. rewrite GoType_unfold, Href, Hall. reflexivity. Qed.

End type_resolver.

(** ** Claims on the type resolver *)

Section type_resolver_claims.
Context `{CaseRanges}.

(** C4: a schema with a non-empty [$ref] resolves to the PascalCase of the
    last [/]-delimited segment of the reference, whatever its other fields
    are; so two references whose last segments have different PascalCase
    forms resolve to different names. *)
Theorem GoType_ref_precedence (s : Schema) :
  Ref s ≠ "" →
  GoType s = toPascalCase (last_segment (Ref s))
  ∧ free_of "/" (last_segment (Ref s))
  ∧ (Ref s = last_segment (Ref s)
     ∨ ∃ pre, Ref s = pre +:+ String "/" (last_segment (Ref s)))
  ∧ ∀ s' : Schema, Ref s' ≠ "" →
      toPascalCase (last_segment (Ref s)) ≠ toPascalCase (last_segment (Ref s')) →
      GoType s ≠ GoType s'.
Proof.
  intros Href. destruct (last_segment_spec (Ref s)) as [Hfree Hshape].
  repeat split; try done.
  - by apply GoType_of_ref.
  - intros s' Href' Hne. by rewrite !GoType_of_ref.
Qed.

(** C3: with an empty [$ref] and a non-empty [allOf], the first member with a
    non-empty [$ref] gives the name (the PascalCase of the last segment of
    its reference) and the members after it are ignored; when no member has
    a [$ref], the resolution is the type switch on the schema's own fields.
    [{allOf: [{$ref: "#/components/schemas/Foo"}, {type: object}]}] resolves
    as the reference to [Foo] does. *)
Theorem GoType_allOf (s : Schema) :
  Ref s = "" → AllOf s ≠ [] →
  (∀ pre m post, AllOf s = pre ++ m :: post →
     Forall (λ x, Ref x = "") pre → Ref m ≠ "" →
     GoType s = toPascalCase (last_segment (Ref m)) ∧ GoType s = GoType m)
  ∧ (Forall (λ x, Ref x = "") (AllOf s) →
     GoType s = type_switch s (GoType <$> Items s))
  ∧ GoType (schema_allOf [schema_ref "#/components/schemas/Foo"; schema_type "object" ""])
    = "Foo"
  ∧ GoType (schema_ref "#/components/schemas/Foo") = "Foo".
Proof.
  intros Href Hall.
  assert (Hlen : (0 <? List.length (AllOf s))%nat = true).
  { destruct (AllOf s); [done | reflexivity]. }
  split; [| split; [| split; reflexivity]].
  - intros pre m post Hsplit Hpre Hm.
    rewrite (GoType_of_ref m) by done.
    rewrite GoType_unfold, Href, Hlen, Hsplit. simpl.
    by rewrite allOf_loop_first.
  - intros Hnone. rewrite GoType_unfold, Href, Hlen. simpl.
    by rewrite allOf_loop_none.
Qed.

(** C6: with empty [$ref] and [allOf], a schema of type [array] resolves to
    ["[]"] followed by the resolution of its items, and to ["[]interface{}"]
    when it has no items; an array of [integer]/[int32] resolves to
    ["[]int32"]. *)
Theorem GoType_array (s : Schema) :
  Ref s = "" → AllOf s = [] → Type_ s = "array" →
  match Items s with
  | Some items => GoType s = "[]" +:+ GoType items
  | None => GoType s = "[]interface{}"
  end
  ∧ GoType (schema_array (Some (schema_type "integer" "int32"))) = "[]int32".
Proof.
  intros Href Hall Hty. split; [| reflexivity].
  rewrite GoType_no_ref_no_allOf by done.
  unfold type_switch. rewrite Hty. simpl.
  by destruct (Items s).
Qed.

(** C7: with empty [$ref] and [allOf], a schema of type [string] resolves to
    ["string"] when it has enum values, whatever its format; without enum
    values, to ["DateTime"] for the format [date-time], to ["Date"] for the
    format [date], and to ["string"] for any other format. *)
Theorem GoType_string (s : Schema) :
  Ref s = "" → AllOf s = [] → Type_ s = "string" →
  (Enum s ≠ [] → GoType s = "string")
  ∧ (Enum s = [] → Format s = "date-time" → GoType s = "DateTime")
  ∧ (Enum s = [] → Format s = "date" → GoType s = "Date")
  ∧ (Enum s = [] → Format s ≠ "date-time" → Format s ≠ "date" →
     GoType s = "string").
Proof.
  intros Href Hall Hty.
  rewrite GoType_no_ref_no_allOf by done.
  unfold type_switch. rewrite Hty. simpl.
  repeat split.
  - intros Henum. by destruct (Enum s).
  - intros -> ->. reflexivity.
  - intros -> ->. reflexivity.
  - intros -> Hdt Hd. simpl.
    apply String.eqb_neq in Hdt, Hd. by rewrite Hdt, Hd.
Qed.

(** C5: the method name of an operation with an identifier is the PascalCase
    of the identifier in which every ['-'] is replaced by ['_'];
    [get-law-data] gives [GetLawData]; every operation without an identifier
    gets the name [UnknownOperation]. *)
Theorem GetMethodName_spec (op : Operation) :
  (OperationID op ≠ "" →
   GetMethodName op = toPascalCase (GoStrings.ReplaceAll (OperationID op) "-" "_")
   ∧ free_of "-" (GoStrings.ReplaceAll (OperationID op) "-" "_"))
  ∧ (OperationID op = "" → GetMethodName op = "UnknownOperation")
  ∧ GetMethodName (operation_with_id "get-law-data") = "GetLawData".
Proof.
  unfold GetMethodName. split; [| split; [| reflexivity]].
  - intros Hid. split.
    + apply String.eqb_neq in Hid. by rewrite Hid.
    + by apply ReplaceAll_free_of.
  - by intros ->.
Qed.

End type_resolver_claims.

Lemma GoType_ref_precedence_witness :
  Ref (schema_ref "#/components/schemas/law_num_era") ≠ ""
  ∧ GoType (schema_ref "#/components/schemas/law_num_era") = "LawNumEra".
Proof.
  split; [done |].
  destruct (GoType_ref_precedence (schema_ref "#/components/schemas/law_num_era"))
    as [-> _]; [done | reflexivity].
Defined.

Lemma GoType_allOf_witness :
  GoType (schema_allOf [schema_type "object" ""; schema_ref "#/components/schemas/Foo";
                        schema_ref "#/components/schemas/Bar"]) = "Foo".
Proof.
  set (s := schema_allOf _).
  destruct (GoType_allOf s) as [Hfirst _]; [done | done |].
  destruct (Hfirst [schema_type "object" ""] (schema_ref "#/components/schemas/Foo")
              [schema_ref "#/components/schemas/Bar"]) as [-> _]; try done.
  by repeat constructor.
Defined.

Lemma GoType_array_witness :
  GoType (schema_array (Some (schema_array None))) = "[][]interface{}".
Proof.
  destruct (GoType_array (schema_array (Some (schema_array None)))) as [-> _]; done.
Defined.

Lemma GoType_string_witness :
  GoType (schema_string "date-time" [YString "a"]) = "string"
  ∧ GoType (schema_string "date-time" []) = "DateTime".
Proof.
  split.
  - by destruct (GoType_string (schema_string "date-time" [YString "a"]))
      as [-> _].
  - destruct (GoType_string (schema_string "date-time" [])) as (_ & -> & _); done.
Defined.

(** ** Traversal order *)

Section traversal_order.

Lemma append_keys_id (visited : list string) : append_keys visited = visited.
Proof.
  unfold append_keys.
  enough (Hgen : ∀ acc, foldl (λ names name, names ++ [name]) acc visited
                        = acc ++ visited) by apply Hgen.
  induction visited as [|k ks IH]; intros acc; simpl.
  - by rewrite app_nil_r.
  - by rewrite IH, <- app_assoc.
Qed.

(** A list has one sorted rearrangement, so [sort.Strings] is determined by
    what it sorts, not by how. *)
Lemma sorted_rearrangement_unique (l1 l2 : list string) :
  Sorted String.le l1 → Sorted String.le l2 → l1 ≡ₚ l2 → l1 = l2.
Proof. apply (Sorted_unique String.le). Qed.

(** [String.le] is the order of Go strings: byte by byte, a proper prefix
    first. *)
Lemma string_le_nil (s : string) : String.le "" s.
Proof. by destruct s. Qed.

Lemma string_le_cons_nil (c : ascii) (s : string) : ¬ String.le (String c s) "".
Proof. intros Hle. exact Hle. Qed.

Lemma string_le_cons (c1 c2 : ascii) (s1 s2 : string) :
  String.le (String c1 s1) (String c2 s2)
  ↔ byte_val c1 < byte_val c2 ∨ (c1 = c2 ∧ String.le s1 s2).
Proof.
  unfold String.le, String.leb. simpl. unfold Ascii.compare, byte_val.
  destruct (N.compare_spec (N_of_ascii c1) (N_of_ascii c2)) as [Heq | Hlt | Hgt].
  - assert (c1 = c2) as ->
      by (by rewrite <- (ascii_N_embedding c1), Heq, ascii_N_embedding).
    split; [tauto |]. intros [? | [_ ?]]; [lia | done].
  - split; [intros _; left; lia | done].
  - split; [done |]. intros [? | [-> _]]; lia.
Qed.

Lemma sort_Strings_sorted (l : list string) : Sorted String.le (sort_Strings l).
Proof. apply (Sorted_merge_sort String.le). Qed.

Lemma sort_Strings_perm (l : list string) : sort_Strings l ≡ₚ l.
Proof. apply merge_sort_Permutation. Qed.

Lemma sort_Strings_invariant (l1 l2 : list string) :
  l1 ≡ₚ l2 → sort_Strings l1 = sort_Strings l2.
Proof.
  intros Hperm. apply sorted_rearrangement_unique; try apply sort_Strings_sorted.
  by rewrite !sort_Strings_perm.
Qed.

(** The keys of a map, sorted: what both methods return. *)
Lemma sorted_keys_spec {V} (order : list string → list string) (m : gmap string V) :
  rearranges order →
  let r := sort_Strings (append_keys (range_keys order m)) in
  Sorted String.le r ∧ NoDup r ∧ (∀ k, k ∈ r ↔ is_Some (m !! k))
  ∧ r ≡ₚ (map_to_list m).*1
  ∧ ∀ order', rearranges order' →
      sort_Strings (append_keys (range_keys order' m)) = r.
Proof.
  intros Horder r.
  assert (Hperm : r ≡ₚ (map_to_list m).*1).
  { unfold r. rewrite sort_Strings_perm, append_keys_id. apply Horder. }
  split; [apply sort_Strings_sorted |].
  split; [rewrite Hperm; apply NoDup_fst_map_to_list |].
  split; [| split; [done |]].
  - intros k. rewrite Hperm, list_elem_of_fmap. split.
    + intros [[k' v] [-> Hin]]. apply elem_of_map_to_list in Hin. by exists v.
    + intros [v Hv]. exists (k, v). split; [done |]. by apply elem_of_map_to_list.
  - intros order' Horder'. unfold r. apply sort_Strings_invariant.
    rewrite !append_keys_id. unfold range_keys.
    by rewrite (Horder _), (Horder' _).
Qed.

(** C10: [GetSortedSchemas] returns every key of the schemas of the
    components once, in ascending byte-wise order, and [GetSortedPaths] does
    so for the paths; the lists depend on the keys only, not on the order in
    which the runtime visits the maps. *)
Theorem GetSorted_deterministic (order : list string → list string)
    (spec : OpenAPISpec) :
  rearranges order →
  (Sorted String.le (GetSortedSchemas order spec)
   ∧ NoDup (GetSortedSchemas order spec)
   ∧ (∀ name, name ∈ GetSortedSchemas order spec
              ↔ is_Some (Schemas (SpecComponents spec) !! name))
   ∧ ∀ order', rearranges order' →
       GetSortedSchemas order' spec = GetSortedSchemas order spec)
  ∧ (Sorted String.le (GetSortedPaths order spec)
     ∧ NoDup (GetSortedPaths order spec)
     ∧ (∀ path, path ∈ GetSortedPaths order spec ↔ is_Some (Paths spec !! path))
     ∧ ∀ order', rearranges order' →
         GetSortedPaths order' spec = GetSortedPaths order spec).
Proof.
  intros Horder. split.
  - destruct (sorted_keys_spec order (Schemas (SpecComponents spec)) Horder)
      as (? & ? & ? & _ & ?). done.
  - destruct (sorted_keys_spec order (Paths spec) Horder) as (? & ? & ? & _ & ?).
    done.
Qed.

End traversal_order.

Lemma GetSorted_deterministic_witness :
  rearranges reverse
  ∧ GetSortedSchemas reverse sample_spec = ["Date"; "category_cd"; "law_type"]
  ∧ GetSortedPaths reverse sample_spec = ["/keyword"; "/laws"]
  ∧ GetSortedSchemas id sample_spec = GetSortedSchemas reverse sample_spec.
Proof.
  assert (Hrev : rearranges reverse) by (intros l; apply reverse_Permutation).
  split; [done |]. split; [by vm_compute |]. split; [by vm_compute |].
  destruct (GetSorted_deterministic reverse sample_spec Hrev)
    as [(_ & _ & _ & Hsame) _].
  apply Hsame. by intros l.
Defined.

(** ** The naming engine on ASCII strings *)

Section bytes.

Ltac each_byte c :=
  destruct c as [[] [] [] [] [] [] [] []]; vm_compute; try reflexivity; try discriminate.

Lemma byte_of_val (c : ascii) : byte_of (byte_val c) = c.
Proof. each_byte c. Qed.

Lemma upper_byte_idemp (c : ascii) :
  GoStrings.upper_byte (GoStrings.upper_byte c) = GoStrings.upper_byte c.
Proof. each_byte c. Qed.

Lemma lower_byte_idemp (c : ascii) :
  GoStrings.lower_byte (GoStrings.lower_byte c) = GoStrings.lower_byte c.
Proof. each_byte c. Qed.

Lemma upper_byte_ascii (c : ascii) :
  (byte_val (GoStrings.upper_byte c) <? Utf8.RuneSelf) = (byte_val c <? Utf8.RuneSelf).
Proof. each_byte c. Qed.

Lemma lower_byte_ascii (c : ascii) :
  (byte_val (GoStrings.lower_byte c) <? Utf8.RuneSelf) = (byte_val c <? Utf8.RuneSelf).
Proof. each_byte c. Qed.

Lemma upper_byte_sep (c : ascii) :
  is_sep_byte (GoStrings.upper_byte c) = is_sep_byte c.
Proof. each_byte c. Qed.

Lemma lower_byte_sep (c : ascii) :
  is_sep_byte (GoStrings.lower_byte c) = is_sep_byte c.
Proof. each_byte c. Qed.

Lemma lower_byte_not_upper (c : ascii) : is_upper (GoStrings.lower_byte c) = false.
Proof. each_byte c. Qed.

Lemma lower_byte_fixes (c : ascii) :
  Ascii.eqb (GoStrings.lower_byte c) c = negb (is_upper c).
Proof. each_byte c. Qed.

Lemma upper_byte_is_upper (c : ascii) :
  is_upper (GoStrings.upper_byte c) = is_letter c.
Proof. each_byte c. Qed.

End bytes.

Section ascii_strings.
Context `{CaseRanges}.

Lemma isASCII_cons (c : ascii) (s : string) :
  GoStrings.isASCII (String c s) = (byte_val c <? Utf8.RuneSelf) && GoStrings.isASCII s.
Proof. reflexivity. Qed.

Lemma isASCII_app (s1 s2 : string) :
  GoStrings.isASCII (s1 +:+ s2) = GoStrings.isASCII s1 && GoStrings.isASCII s2.
Proof. apply string_forallb_app. Qed.

(** Ranging over a string of ASCII bytes yields its bytes. *)
Lemma range_loop_ascii (fuel : nat) (s : string) :
  (String.length s ≤ fuel)%nat → GoStrings.isASCII s = true →
  Utf8.range_loop fuel s = ascii_runes s.
Proof.
  revert fuel. induction s as [|c s IH]; intros fuel Hfuel Hascii.
  - by destruct fuel.
  - destruct fuel as [|fuel]; [simpl in Hfuel; lia |].
    rewrite isASCII_cons in Hascii. apply andb_true_iff in Hascii as [Hc Hs].
    unfold ascii_runes. simpl. rewrite Hc. simpl. f_equal.
    apply IH; [simpl in Hfuel; lia | done].
Qed.

Lemma range_ascii (s : string) :
  GoStrings.isASCII s = true → Utf8.range s = ascii_runes s.
Proof. intros. by apply range_loop_ascii. Qed.

Lemma ToUpper_ascii (s : string) :
  GoStrings.isASCII s = true → GoStrings.ToUpper s = string_map GoStrings.upper_byte s.
Proof. intros Hs. unfold GoStrings.ToUpper. by rewrite Hs. Qed.

Lemma ToLower_ascii (s : string) :
  GoStrings.isASCII s = true → GoStrings.ToLower s = string_map GoStrings.lower_byte s.
Proof. intros Hs. unfold GoStrings.ToLower. by rewrite Hs. Qed.

Lemma string_of_byte_ascii (c : ascii) :
  (byte_val c <? Utf8.RuneSelf) = true → string_of_byte c = String c "".
Proof.
  intros Hc. unfold string_of_byte, Utf8.EncodeRune.
  by rewrite Hc, byte_of_val.
Qed.

(** [capitalize] on a word that starts with an ASCII byte and goes on with
    ASCII bytes. *)
Lemma capitalize_ascii (c : ascii) (rest : string) :
  GoStrings.isASCII (String c rest) = true →
  capitalize (String c rest)
  = String (GoStrings.upper_byte c) (string_map GoStrings.lower_byte rest).
Proof.
  rewrite isASCII_cons. intros [Hc Hrest]%andb_true_iff. unfold capitalize.
  rewrite string_of_byte_ascii, ToLower_ascii by done.
  rewrite ToUpper_ascii by (by rewrite isASCII_cons, Hc).
  reflexivity.
Qed.

Lemma isASCII_map_lower (s : string) :
  GoStrings.isASCII (string_map GoStrings.lower_byte s) = GoStrings.isASCII s.
Proof.
  induction s as [|c s IH]; [done |]. simpl.
  by rewrite !isASCII_cons, lower_byte_ascii, IH.
Qed.

Lemma sep_free_map_lower (s : string) :
  string_forallb (λ c, negb (is_sep_byte c)) (string_map GoStrings.lower_byte s)
  = string_forallb (λ c, negb (is_sep_byte c)) s.
Proof.
  induction s as [|c s IH]; [done |]. simpl. by rewrite lower_byte_sep, IH.
Qed.

Lemma string_map_lower_idemp (s : string) :
  string_map GoStrings.lower_byte (string_map GoStrings.lower_byte s)
  = string_map GoStrings.lower_byte s.
Proof.
  induction s as [|c s IH]; [done |]. simpl. by rewrite lower_byte_idemp, IH.
Qed.

Lemma capitalize_ascii_word (w : string) :
  ascii_word w → ascii_word (capitalize w).
Proof.
  intros (Hne & Hascii & Hsep). destruct w as [|c rest]; [done |].
  rewrite capitalize_ascii by done.
  rewrite isASCII_cons in Hascii. apply andb_true_iff in Hascii as [Hc Hrest].
  simpl in Hsep. apply andb_true_iff in Hsep as [Hsc Hsrest].
  split; [done |]. split.
  - by rewrite isASCII_cons, upper_byte_ascii, isASCII_map_lower, Hc, Hrest.
  - simpl. by rewrite upper_byte_sep, sep_free_map_lower, Hsc, Hsrest.
Qed.

End ascii_strings.

Section pascal_case.
Context `{CaseRanges}.

Lemma ascii_runes_cons (c : ascii) (s : string) :
  ascii_runes (String c s) = (byte_val c, String c "") :: ascii_runes s.
Proof. reflexivity. Qed.

Lemma ascii_word_snoc (w : string) (c : ascii) :
  ascii_word w → (byte_val c <? Utf8.RuneSelf) = true → is_sep_byte c = false →
  ascii_word (w +:+ String c "").
Proof.
  intros (Hne & Hascii & Hsep) Hc Hs. split; [by destruct w |]. split.
  - by rewrite isASCII_app, Hascii, isASCII_cons, Hc.
  - rewrite string_forallb_app, Hsep. simpl. by rewrite Hs.
Qed.

Lemma ascii_word_single (c : ascii) :
  (byte_val c <? Utf8.RuneSelf) = true → is_sep_byte c = false →
  ascii_word (String c "").
Proof.
  intros Hc Hs. split; [done |]. split.
  - by rewrite isASCII_cons, Hc.
  - simpl. by rewrite Hs.
Qed.

(** The fields of a string of ASCII bytes are ASCII words. *)
Lemma FieldsFunc_loop_ascii_words (s : string) (start : option string) :
  GoStrings.isASCII s = true →
  (∀ w, start = Some w → ascii_word w) →
  Forall ascii_word (GoStrings.FieldsFunc_loop is_separator (ascii_runes s) start).
Proof.
  revert start. induction s as [|c s IH]; intros start Hascii Hstart.
  - simpl. destruct start as [w|]; [| constructor].
    constructor; [by apply Hstart | constructor].
  - rewrite isASCII_cons in Hascii. apply andb_true_iff in Hascii as [Hc Hs].
    rewrite ascii_runes_cons. simpl.
    destruct (is_separator (byte_val c)) eqn:Hsep.
    + destruct start as [w|].
      * constructor; [by apply Hstart |]. by apply IH.
      * by apply IH.
    + apply IH; [done |]. intros w' [= <-]. destruct start as [w|].
      * apply ascii_word_snoc; auto.
      * by apply ascii_word_single.
Qed.

Lemma FieldsFunc_ascii_words (s : string) :
  GoStrings.isASCII s = true →
  Forall ascii_word (GoStrings.FieldsFunc s is_separator).
Proof.
  intros Hs. unfold GoStrings.FieldsFunc. rewrite range_ascii by done.
  by apply FieldsFunc_loop_ascii_words.
Qed.

(** A run of ASCII bytes without separator is one field. *)
Lemma FieldsFunc_loop_sep_free (t w : string) :
  string_forallb (λ c, negb (is_sep_byte c)) t = true →
  GoStrings.FieldsFunc_loop is_separator (ascii_runes t) (Some w) = [w +:+ t].
Proof.
  revert w. induction t as [|c t IH]; intros w Hsep.
  - simpl. by rewrite string_app_nil_r.
  - simpl in Hsep. apply andb_true_iff in Hsep as [Hc Ht].
    rewrite ascii_runes_cons. simpl.
    unfold is_sep_byte in Hc. apply negb_true_iff in Hc. rewrite Hc.
    rewrite IH by done. by rewrite string_app_assoc.
Qed.

Lemma FieldsFunc_ascii_word (w : string) :
  ascii_word w → GoStrings.FieldsFunc w is_separator = [w].
Proof.
  intros (Hne & Hascii & Hsep). unfold GoStrings.FieldsFunc.
  rewrite range_ascii by done. destruct w as [|c w]; [done |].
  simpl in Hsep. apply andb_true_iff in Hsep as [Hc Hw].
  rewrite ascii_runes_cons. simpl.
  unfold is_sep_byte in Hc. apply negb_true_iff in Hc. rewrite Hc.
  by rewrite FieldsFunc_loop_sep_free.
Qed.

Lemma Join_empty_sep (l : list string) : GoStrings.Join l "" = string_concat l.
Proof.
  unfold GoStrings.Join. induction l as [|x [|y l] IH]; [done | |].
  - simpl. by rewrite string_app_nil_r.
  - change (x +:+ "" +:+ String.concat "" (y :: l) = x +:+ string_concat (y :: l)).
    by rewrite IH.
Qed.

(** [toPascalCase] is the concatenation of the capitalized fields. *)
Lemma toPascalCase_fields (s : string) :
  toPascalCase s
  = string_concat (map capitalize (GoStrings.FieldsFunc s is_separator)).
Proof.
  unfold toPascalCase. rewrite Join_empty_sep.
  destruct (String.eqb_spec s "") as [-> |]; reflexivity.
Qed.

Lemma string_concat_map_cons {A} (f : A → string) (x : A) (l : list A) :
  string_concat (map f (x :: l)) = f x +:+ string_concat (map f l).
Proof. reflexivity. Qed.

Lemma string_concat_map_single {A} (f : A → string) (x : A) :
  string_concat (map f [x]) = f x.
Proof. apply string_app_nil_r. Qed.

Lemma ascii_concat_capitalize (ws : list string) :
  Forall ascii_word ws →
  GoStrings.isASCII (string_concat (map capitalize ws)) = true
  ∧ string_forallb (λ c, negb (is_sep_byte c)) (string_concat (map capitalize ws)) = true.
Proof.
  induction 1 as [|w ws Hw _ [IHa IHs]]; [done |].
  destruct (capitalize_ascii_word w Hw) as (_ & Ha & Hs). simpl.
  by rewrite isASCII_app, string_forallb_app, Ha, Hs, IHa, IHs.
Qed.

End pascal_case.

Section idempotence.
Context `{CaseRanges}.

Lemma string_map_lower_fixed (t : string) :
  string_map GoStrings.lower_byte t = t
  ↔ string_forallb (λ c, negb (is_upper c)) t = true.
Proof.
  induction t as [|c t IH]; [done |]. simpl.
  rewrite andb_true_iff, <- IH, <- lower_byte_fixes, Ascii.eqb_eq.
  split; [by intros [= -> ->] | by intros [-> ->]].
Qed.

Lemma no_upper_map_lower (t : string) :
  string_forallb (λ c, negb (is_upper c)) (string_map GoStrings.lower_byte t) = true.
Proof.
  induction t as [|c t IH]; [done |]. simpl. by rewrite lower_byte_not_upper, IH.
Qed.

Lemma no_upper_capitalized (ws : list string) :
  Forall ascii_word ws →
  string_forallb (λ c, negb (is_upper c)) (string_concat (map capitalize ws)) = true
  ↔ Forall (λ w, starts_with_letter w = false) ws.
Proof.
  induction 1 as [|w ws Hw _ IH]; [done |].
  destruct Hw as (Hne & Hascii & _). destruct w as [|c r]; [done |].
  rewrite string_concat_map_cons, capitalize_ascii by done.
  rewrite string_forallb_app. simpl.
  rewrite upper_byte_is_upper, no_upper_map_lower, andb_true_r.
  rewrite andb_true_iff, IH, negb_true_iff, Forall_cons. done.
Qed.

(** C2, amended: on a string of ASCII bytes, [toPascalCase] gives the same
    result when applied twice as when applied once exactly when no word of
    the string after the first begins with a letter. *)
Theorem toPascalCase_twice (s : string) :
  GoStrings.isASCII s = true →
  toPascalCase (toPascalCase s) = toPascalCase s
  ↔ Forall (λ w, starts_with_letter w = false)
           (tail (GoStrings.FieldsFunc s is_separator)).
Proof.
  intros Hs. pose proof (FieldsFunc_ascii_words s Hs) as Hws.
  rewrite (toPascalCase_fields s).
  destruct (GoStrings.FieldsFunc s is_separator) as [|w1 ws]; [done |].
  apply Forall_cons in Hws as [Hw1 Hws]. simpl tail.
  destruct (ascii_concat_capitalize (w1 :: ws)) as [Hascii Hsep];
    [by constructor |].
  rewrite <- (no_upper_capitalized ws Hws), <- string_map_lower_fixed.
  revert Hascii Hsep. rewrite string_concat_map_cons.
  set (R := string_concat (map capitalize ws)) in *.
  destruct Hw1 as (Hne & Hw1 & _). destruct w1 as [|c r]; [done |].
  rewrite capitalize_ascii by done. rewrite string_app_cons.
  intros Hascii Hsep.
  rewrite toPascalCase_fields, FieldsFunc_ascii_word by done.
  rewrite string_concat_map_single, capitalize_ascii by done.
  rewrite upper_byte_idemp, string_map_app, string_map_lower_idemp.
  split.
  - intros [= Heq]. by apply (inj (String.append _)) in Heq.
  - by intros ->.
Qed.

End idempotence.

Lemma toPascalCase_twice_witness :
  GoStrings.isASCII "law_1" = true
  ∧ toPascalCase (toPascalCase "law_1") = toPascalCase "law_1".
Proof.
  split; [reflexivity |].
  apply (toPascalCase_twice "law_1"); [reflexivity |].
  by repeat constructor.
Defined.

(** C2, as stated, fails: ["law_id"] becomes ["LawId"], which becomes
    ["Lawid"]. *)
Lemma toPascalCase_not_idempotent :
  toPascalCase "law_id" = "LawId"
  ∧ toPascalCase (toPascalCase "law_id") = "Lawid"
  ∧ toPascalCase (toPascalCase "law_id") ≠ toPascalCase "law_id".
Proof. by vm_compute. Qed.

(** ** The naming engine and the characters of a word *)

Section characters.
Context `{CaseRanges}.

Lemma capitalize_chars_ascii_head (w : string) :
  starts_with_ascii w = true → capitalize w = capitalize_chars w.
Proof.
  destruct w as [|c rest]; [done |]. intros Hc. simpl in Hc.
  unfold capitalize_chars, Utf8.range. simpl. rewrite Hc. simpl.
  by rewrite string_of_byte_ascii.
Qed.

(** On a string whose words all begin with an ASCII byte, [toPascalCase] is
    the transformation that the specification describes; ["lawId"], one
    word, becomes ["Lawid"]. *)
Lemma toPascalCase_by_characters (s : string) :
  Forall (λ w, starts_with_ascii w = true) (GoStrings.FieldsFunc s is_separator) →
  toPascalCase s = PascalCase_by_characters s.
Proof.
  intros Hws. rewrite toPascalCase_fields. unfold PascalCase_by_characters.
  induction Hws as [|w ws Hw _ IH]; [done |].
  by rewrite !string_concat_map_cons, IH, capitalize_chars_ascii_head.
Qed.

Lemma toPascalCase_lawId :
  toPascalCase "lawId" = "Lawid" ∧ GoStrings.FieldsFunc "lawId" is_separator = ["lawId"].
Proof. split; reflexivity. Qed.

Lemma toPascalCase_law_id :
  toPascalCase "law_id" = "LawId" ∧ toPascalCase "LawId" = "Lawid".
Proof. split; reflexivity. Qed.

End characters.

(** C8: [toPascalCase] takes the first byte of a word, [word[0]], for its
    first character.  On the word U+00E9 (bytes C3 A9) it upper-cases
    U+00C3, the character whose code is the first byte, and reads the
    second byte as an invalid character: the result is U+00C3 U+FFFD, where
    the first character in upper case is U+00C9. *)
Theorem toPascalCase_first_byte :
  toPascalCase (bytes [0xC3; 0xA9]) = bytes [0xC3; 0x83; 0xEF; 0xBF; 0xBD]
  ∧ PascalCase_by_characters (bytes [0xC3; 0xA9]) = bytes [0xC3; 0x89]
  ∧ toPascalCase (bytes [0xC3; 0xA9]) ≠ PascalCase_by_characters (bytes [0xC3; 0xA9]).
Proof. by vm_compute. Qed.

(** ** The generated client: failures *)

Section client_failures.
Import Http LawApi.
Context `{Net, TypesGo}.

Lemma execute_api_failure {T} (c : Client) (urlPath : string)
    (read : Response → option T * option error) (resp : Response) :
  answers c urlPath resp → 400 ≤ StatusCode resp →
  api_failure (execute c urlPath read) resp.
Proof.
  intros (req & Hreq & Hdo) Hcode. unfold execute.
  rewrite Hreq, Hdo. apply Z.leb_le in Hcode. rewrite Hcode. simpl.
  eexists. split; [reflexivity |]. split; [reflexivity |]. split.
  - apply contains_app_l. apply contains_app_r. apply contains_refl.
  - do 3 apply contains_app_l. apply contains_refl.
Qed.

(** C1: in each of the six methods, a response whose status code is 400 or
    more makes the method return no result and an error whose message holds
    the status code and the body as it was read; for a status 404 the
    message is ["API error 404: "] followed by the body. *)
Theorem status_400_is_api_failure (c : Client) (resp : Response) :
  400 ≤ StatusCode resp →
  (∀ lawRevisionId params,
     answers c (GetAttachment_url c lawRevisionId params) resp →
     api_failure (GetAttachment c lawRevisionId params) resp)
  ∧ (∀ params,
     answers c (GetKeyword_url c params) resp →
     api_failure (GetKeyword c params) resp)
  ∧ (∀ lawIdOrNumOrRevisionId params,
     answers c (GetLawData_url c lawIdOrNumOrRevisionId params) resp →
     api_failure (GetLawData c lawIdOrNumOrRevisionId params) resp)
  ∧ (∀ lawIdOrNumOrRevisionId fileType params,
     answers c (GetLawFile_url c lawIdOrNumOrRevisionId fileType params) resp →
     api_failure (GetLawFile c lawIdOrNumOrRevisionId fileType params) resp)
  ∧ (∀ lawIdOrNum params,
     answers c (GetRevisions_url c lawIdOrNum params) resp →
     api_failure (GetRevisions c lawIdOrNum params) resp)
  ∧ (∀ params,
     answers c (GetLaws_url c params) resp →
     api_failure (GetLaws c params) resp)
  ∧ (StatusCode resp = 404 →
     ∀ T (result : option T * option error), api_failure result resp →
       result = (None, Some ("API error 404: " +:+ read_bytes (Body resp)))).
Proof.
  intros Hcode. repeat apply conj; intros; try by apply execute_api_failure.
  match goal with Hfail : api_failure _ _ |- _ => destruct Hfail as (msg & -> & -> & _) end.
  by replace (StatusCode resp) with 404.
Qed.

End client_failures.

Lemma status_400_is_api_failure_witness :
  LawApi.GetLaws (sample_client (Http.mkResponse 404 (Http.mkReader "not found" None))) None
  = (None, Some "API error 404: not found").
Proof.
  set (resp := Http.mkResponse 404 (Http.mkReader "not found" None)).
  destruct (status_400_is_api_failure (sample_client resp) resp) as (_ & _ & _ & _ & _ & Hlaws & _);
    [done |].
  destruct (Hlaws None) as (msg & -> & -> & _); [by eexists | reflexivity].
Defined.

(** ** The generated client: query strings *)

Section query_strings.
Import Url.

Lemma concat_sep_app (sep : string) (l1 l2 : list string) :
  l1 ≠ [] → l2 ≠ [] →
  String.concat sep (l1 ++ l2)
  = String.concat sep l1 +:+ sep +:+ String.concat sep l2.
Proof.
  intros Hl1 Hl2. induction l1 as [|x [|y l1] IH]; [done | |].
  - by destruct l2.
  - change (x +:+ sep +:+ String.concat sep ((y :: l1) ++ l2)
            = (x +:+ sep +:+ String.concat sep (y :: l1)) +:+ sep
                +:+ String.concat sep l2).
    rewrite IH by done. by rewrite !string_app_assoc.
Qed.

Lemma contains_empty (s : string) : contains s "".
Proof. by exists "", s. Qed.

(** The pairs of a part of a list are next to one another in the joined
    list. *)
Lemma concat_sep_contains (sep : string) (before part after : list string) :
  contains (String.concat sep (before ++ part ++ after)) (String.concat sep part).
Proof.
  destruct part as [|x part]; [apply contains_empty |].
  assert (Hin : contains (String.concat sep ((x :: part) ++ after))
                         (String.concat sep (x :: part))).
  { destruct after as [|y after].
    - rewrite app_nil_r. apply contains_refl.
    - rewrite concat_sep_app by done. apply contains_app_r, contains_refl. }
  destruct before as [|b before]; [done |].
  rewrite concat_sep_app by done. by do 2 apply contains_app_l.
Qed.

Lemma query_pair_nonempty (key value : string) : query_pair key value ≠ "".
Proof. unfold query_pair. by destruct key. Qed.

Lemma concat_sep_nonempty (sep : string) (l : list string) :
  l ≠ [] → Forall (λ x, x ≠ "") l → (0 <? String.length (String.concat sep l))%nat = true.
Proof.
  intros Hl Hne. destruct Hne as [|x l Hx _]; [done |].
  apply Nat.ltb_lt. destruct x as [|c x]; [done |].
  destruct l; simpl; lia.
Qed.

(** The buffer of [Encode] holds the pairs written so far, joined by ['&']. *)
Lemma Encode_key_joined (keyEscaped : string) (written : list string)
    (vs : list string) :
  Forall (λ x, x ≠ "") written →
  Encode_key keyEscaped (String.concat "&" written) vs
  = String.concat "&" (written ++ map (query_pair keyEscaped) vs).
Proof.
  revert written. induction vs as [|v vs IH]; intros written Hne.
  - by rewrite app_nil_r.
  - unfold Encode_key in *. simpl foldl. simpl map.
    replace (written ++ query_pair keyEscaped v :: map (query_pair keyEscaped) vs)
      with ((written ++ [query_pair keyEscaped v]) ++ map (query_pair keyEscaped) vs)
      by (by rewrite <- app_assoc).
    rewrite <- IH.
    + f_equal. destruct written as [|w written]; [done |].
      rewrite concat_sep_nonempty, concat_sep_app by done.
      by rewrite !string_app_assoc.
    + apply Forall_app. split; [done |].
      constructor; [apply query_pair_nonempty | constructor].
Qed.

Lemma Encode_keys_joined (v : Values) (written : list string) (keys : list string) :
  Forall (λ x, x ≠ "") written →
  foldl (λ buf k, Encode_key (QueryEscape k) buf (default [] (v !! k)))
        (String.concat "&" written) keys
  = String.concat "&"
      (written ++ flat_map (λ k, map (query_pair (QueryEscape k))
                                     (default [] (v !! k))) keys).
Proof.
  revert written. induction keys as [|k keys IH]; intros written Hne.
  - simpl. by rewrite app_nil_r.
  - simpl. rewrite Encode_key_joined by done. rewrite IH.
    + by rewrite <- app_assoc.
    + apply Forall_app. split; [done |].
      apply Forall_forall. intros x Hx. apply list_elem_of_fmap in Hx as [? [-> _]].
      apply query_pair_nonempty.
Qed.

(** [Encode] joins the pairs of all the keys with ['&']. *)
Lemma Encode_joined (v : Values) : Encode v = String.concat "&" (Encode_pairs v).
Proof.
  unfold Encode, Encode_pairs.
  destruct (size v =? 0)%nat eqn:Hsize.
  - apply Nat.eqb_eq, map_size_empty_iff in Hsize as ->.
    by rewrite map_to_list_empty.
  - by rewrite (Encode_keys_joined v []).
Qed.

(** The pairs of a key of [v] stand next to one another in [v.Encode()], in
    the order of the values. *)
Lemma Encode_contains_key (v : Values) (key : string) (vs : list string) :
  v !! key = Some vs →
  contains (Encode v) (String.concat "&" (map (query_pair (QueryEscape key)) vs)).
Proof.
  intros Hkey. rewrite Encode_joined. unfold Encode_pairs.
  assert (Hin : key ∈ sort_Strings (map_to_list v).*1).
  { rewrite sort_Strings_perm. apply list_elem_of_fmap. exists (key, vs).
    split; [done |]. by apply elem_of_map_to_list. }
  apply list_elem_of_split in Hin as (l1 & l2 & ->).
  rewrite flat_map_app. simpl. rewrite Hkey. simpl.
  apply concat_sep_contains.
Qed.

End query_strings.

Section query_parameters.
Import Url Http LawApi.
Context `{Net, TypesGo}.

Lemma lookup_Set_ne (key key' value : string) (v : Values) :
  key ≠ key' → Set_ key value v !! key' = v !! key'.
Proof. intros. by apply lookup_insert_ne. Qed.

Lemma lookup_set_field_ne {A} `{Formatter A} (key key' : string)
    (field : option A) (v : Values) :
  key ≠ key' → set_field key field v !! key' = v !! key'.
Proof. intros. destruct field; [by apply lookup_insert_ne | done]. Qed.

Lemma lookup_add_field_ne {A} `{Formatter A} (key key' : string)
    (field : option (list A)) (v : Values) :
  key ≠ key' → add_field key field v !! key' = v !! key'.
Proof.
  intros Hne. destruct field as [vs|]; [| done]. simpl.
  revert v. induction vs as [|x vs IH]; intros v; [done |]. simpl.
  rewrite IH. by apply lookup_insert_ne.
Qed.

(** Adding the elements of a field appends them, formatted, to the values of
    its key. *)
Lemma lookup_add_field {A} `{Formatter A} (key : string) (vs : list A) (v : Values) :
  default [] (add_field key (Some vs) v !! key)
  = default [] (v !! key) ++ (Sprintf_v <$> vs).
Proof.
  simpl. revert v. induction vs as [|x vs IH]; intros v.
  - simpl. by rewrite app_nil_r.
  - simpl. rewrite IH. unfold Add. rewrite lookup_insert_eq. simpl.
    by rewrite <- app_assoc.
Qed.

Lemma sent_repeated_intro {A} `{Formatter A} (key : string)
    (field : option (list A)) (queryParams : Values) (urlPath : string) :
  QueryEscape key = key →
  (∀ vs, field = Some vs → default [] (queryParams !! key) = Sprintf_v <$> vs) →
  sent_repeated key field queryParams (with_query urlPath queryParams).
Proof.
  intros Hkey Hlookup vs Hfield. specialize (Hlookup vs Hfield).
  split; [done |].
  destruct vs as [|x vs].
  { split; [apply contains_empty | done]. }
  destruct (queryParams !! key) as [l|] eqn:Hq; [| done]. simpl in Hlookup.
  subst l.
  assert (Hin : contains (Encode queryParams)
                         (repeated_pairs key (Sprintf_v <$> x :: vs))).
  { unfold repeated_pairs. rewrite <- Hkey at 1. by apply Encode_contains_key. }
  split; [done |]. intros _. unfold with_query.
  assert (Hsize : (0 <? size queryParams)%nat = true).
  { apply Nat.ltb_lt. destruct (decide (size queryParams = 0%nat)) as [Hz|]; [| lia].
    apply map_size_empty_iff in Hz. by rewrite Hz in Hq. }
  rewrite Hsize. by do 2 apply contains_app_l.
Qed.

End query_parameters.

Section query_claims.
Import Url Http LawApi.
Context `{Net, TypesGo}.

Ltac other_keys :=
  repeat first
    [ rewrite lookup_set_field_ne by done
    | rewrite lookup_add_field_ne by done
    | rewrite lookup_Set_ne by done ].

Ltac repeated_key :=
  apply sent_repeated_intro; [reflexivity |];
  let vs := fresh "vs" in let Hfield := fresh "Hfield" in
  intros vs Hfield;
  unfold GetKeyword_query, GetRevisions_query, GetLaws_query; other_keys;
  rewrite Hfield, lookup_add_field; other_keys;
  by rewrite lookup_empty.

(** C9: in every method, every sequence-valued field that is set is sent
    under its wire name as a repeated key: one pair [key=value] for each
    element, in the order of the elements, next to one another in the
    encoded query and in the requested URL.  A field [law_type] whose
    elements are written ["a"] and ["b"] gives a URL that contains
    [law_type=a&law_type=b]. *)
Theorem sequence_fields_repeated (c : Client) :
  (∀ p : GetKeywordParams.t,
     let q := GetKeyword_query p in
     let url := GetKeyword_url c (Some p) in
     sent_repeated "law_type" (GetKeywordParams.LawType p) q url
     ∧ sent_repeated "category_cd" (GetKeywordParams.CategoryCd p) q url)
  ∧ (∀ (p : GetRevisionsParams.t) (lawIdOrNum : string),
     let q := GetRevisions_query p in
     let url := GetRevisions_url c lawIdOrNum (Some p) in
     sent_repeated "amendment_type" (GetRevisionsParams.AmendmentType p) q url
     ∧ sent_repeated "category_cd" (GetRevisionsParams.CategoryCd p) q url
     ∧ sent_repeated "current_revision_status"
         (GetRevisionsParams.CurrentRevisionStatus p) q url
     ∧ sent_repeated "mission" (GetRevisionsParams.Mission p) q url
     ∧ sent_repeated "repeal_status" (GetRevisionsParams.RepealStatus p) q url)
  ∧ (∀ p : GetLawsParams.t,
     let q := GetLaws_query p in
     let url := GetLaws_url c (Some p) in
     sent_repeated "law_type" (GetLawsParams.LawType p) q url
     ∧ sent_repeated "category_cd" (GetLawsParams.CategoryCd p) q url
     ∧ sent_repeated "mission" (GetLawsParams.Mission p) q url
     ∧ sent_repeated "repeal_status" (GetLawsParams.RepealStatus p) q url)
  ∧ (∀ (p : GetLawsParams.t) vs,
     GetLawsParams.LawType p = Some vs → Sprintf_v <$> vs = ["a"; "b"] →
     contains (GetLaws_url c (Some p)) "law_type=a&law_type=b").
Proof.
  assert (Hlaws : ∀ p : GetLawsParams.t,
    sent_repeated "law_type" (GetLawsParams.LawType p) (GetLaws_query p)
      (GetLaws_url c (Some p))).
  { intros p. unfold GetLaws_url. repeated_key. }
  split; [| split; [| split]].
  - intros p q url. subst q url. unfold GetKeyword_url.
    split; repeated_key.
  - intros p lawIdOrNum q url. subst q url. unfold GetRevisions_url.
    repeat apply conj; repeated_key.
  - intros p q url. subst q url. split; [apply Hlaws |].
    unfold GetLaws_url. repeat apply conj; repeated_key.
  - intros p vs Hfield Hvs. destruct (Hlaws p vs Hfield) as (_ & _ & Hurl).
    rewrite Hvs in Hurl. apply Hurl. by intros ->.
Qed.

End query_claims.

Lemma sequence_fields_repeated_witness :
  LawApi.GetLaws_url (sample_client (Http.mkResponse 200 (Http.mkReader "{}" None)))
    (Some sample_GetLawsParams)
  = "https://laws.e-gov.go.jp/api/2/laws?category_cd=011&category_cd=021&law_type=a&law_type=b&limit=5"
  ∧ contains
      (LawApi.GetLaws_url (sample_client (Http.mkResponse 200 (Http.mkReader "{}" None)))
         (Some sample_GetLawsParams))
      "law_type=a&law_type=b".
Proof.
  split; [by vm_compute |].
  destruct (sequence_fields_repeated
              (sample_client (Http.mkResponse 200 (Http.mkReader "{}" None))))
    as (_ & _ & _ & Hexample).
  by apply (Hexample sample_GetLawsParams ["a"; "b"]).
Defined.

(** * Further properties *)

(** ** The type resolver: required fields, the type switch, references *)

Section resolver_more.
Context `{CaseRanges}.

(** X1: [IsRequired] is membership in the list [required]. *)
Theorem IsRequired_iff (s : Schema) (fieldName : string) :
  IsRequired s fieldName = true ↔ fieldName ∈ Required s.
Proof.
  unfold IsRequired. induction (Required s) as [|req required IH]; simpl.
  - split; [done | by intros ?%elem_of_nil].
  - rewrite elem_of_cons. destruct (String.eqb_spec req fieldName) as [-> | Hne].
    + split; auto.
    + rewrite IH. split; [auto |]. intros [? | ?]; [congruence | done].
Qed.

Lemma GoType_no_reference (s : Schema) :
  no_reference s → GoType s = type_switch s (GoType <$> Items s).
Proof.
  intros [Href Hall]. rewrite GoType_unfold, Href. simpl.
  rewrite allOf_loop_none by done. by destruct (0 <? List.length (AllOf s))%nat.
Qed.

(** X2: the cases of the type switch other than [string] and [array]: the sized
    and default integers and floats, the booleans, the objects with and
    without properties, and every other or missing type. *)
Theorem GoType_scalars_and_objects (s : Schema) :
  no_reference s →
  (Type_ s = "integer" →
     GoType s = if String.eqb (Format s) "int32" then "int32"
                else if String.eqb (Format s) "int64" then "int64" else "int")
  ∧ (Type_ s = "number" →
     GoType s = if String.eqb (Format s) "float" then "float32" else "float64")
  ∧ (Type_ s = "boolean" → GoType s = "bool")
  ∧ (Type_ s = "object" →
     GoType s = if decide (Properties s = ∅) then "map[string]interface{}"
                else "interface{}")
  ∧ (Type_ s ∉ ["string"; "integer"; "number"; "boolean"; "array"; "object"] →
     GoType s = "interface{}").
Proof.
  intros Hno. rewrite (GoType_no_reference s Hno). unfold type_switch.
  repeat apply conj.
  - by intros ->.
  - intros ->. simpl. by destruct (String.eqb (Format s) "float"),
                         (String.eqb (Format s) "double").
  - by intros ->.
  - intros ->. simpl. destruct (decide (Properties s = ∅)) as [-> | Hne]; [done |].
    destruct (size (Properties s)) eqn:Hsize; [| done].
    by apply map_size_empty_iff in Hsize.
  - intros Hty. rewrite !not_elem_of_cons in Hty.
    destruct Hty as (H1 & H2 & H3 & H4 & H5 & H6 & _).
    apply String.eqb_neq in H1, H2, H3, H4, H5, H6.
    by rewrite H1, H2, H3, H4, H5, H6.
Qed.

Lemma type_switch_names (s : Schema) (items : option string) :
  type_switch s items ∈ switch_names
  ∨ (Type_ s = "array" ∧ ∃ t, type_switch s items = "[]" +:+ t).
Proof.
  unfold type_switch, switch_names.
  repeat match goal with
         | |- context [if ?b then _ else _] => destruct b eqn:?
         end;
    try (left; by repeat constructor).
  - right. split; [by apply String.eqb_eq |]. destruct items; eauto.
Qed.

(** X3: without a reference, the resolved type is never the empty name: it is one
    of eleven names, or ["[]"] followed by the type of the elements of an
    array. *)
Theorem GoType_no_reference_names (s : Schema) :
  no_reference s →
  GoType s ≠ ""
  ∧ (GoType s ∈ switch_names
     ∨ (Type_ s = "array" ∧ ∃ t, GoType s = "[]" +:+ t)).
Proof.
  intros Hno. rewrite (GoType_no_reference s Hno).
  destruct (type_switch_names s (GoType <$> Items s)) as [Hin | [Hty [t Ht]]].
  - split; [| by left]. intros Hempty. rewrite Hempty in Hin.
    apply list_elem_of_In in Hin. simpl in Hin. intuition discriminate.
  - split; [by rewrite Ht | right; eauto].
Qed.

(** [strings.Split] of a string with a separator in it: the pieces before the
    separator, then the pieces after it. *)
Lemma Split_app (pre rest : string) (sep : ascii) :
  GoStrings.Split (pre +:+ String sep rest) sep
  = GoStrings.Split pre sep ++ GoStrings.Split rest sep.
Proof.
  induction pre as [|c pre IH].
  - simpl. by rewrite Ascii.eqb_refl.
  - rewrite string_app_cons. simpl. rewrite IH.
    destruct (Ascii.eqb c sep); [done |].
    destruct (Split_last pre sep) as (init & x & -> & _).
    by destruct init.
Qed.

Lemma Split_free (s : string) (sep : ascii) :
  free_of sep s → GoStrings.Split s sep = [s].
Proof.
  unfold free_of. induction s as [|c s IH]; [done |]. simpl.
  intros [Hc Hs]%andb_true_iff. apply negb_true_iff in Hc.
  by rewrite Hc, IH.
Qed.

Lemma last_segment_app (pre name : string) :
  free_of "/" name → last_segment (pre +:+ String "/" name) = name.
Proof.
  intros Hfree. unfold last_segment.
  by rewrite Split_app, (Split_free name), last_snoc.
Qed.

(** X4: a reference that ends with ['/'] and a name free of ['/'] resolves to the
    PascalCase of that name, whatever stands before; with nothing after the
    last ['/'], to the empty name. *)
Theorem GoType_ref_of_name (s : Schema) (pre name : string) :
  Ref s = pre +:+ String "/" name → free_of "/" name →
  GoType s = toPascalCase name ∧ (name = "" → GoType s = "").
Proof.
  intros Href Hfree.
  assert (Hgo : GoType s = toPascalCase name).
  { rewrite GoType_of_ref, Href, last_segment_app; [done | done |].
    rewrite Href. by destruct pre. }
  split; [done |]. intros ->. by rewrite Hgo.
Qed.

End resolver_more.

Lemma GoType_scalars_and_objects_witness :
  GoType (schema_type "number" "double") = "float64"
  ∧ GoType (schema_type "object" "") = "map[string]interface{}".
Proof.
  assert (Hno : ∀ ty fmt, no_reference (schema_type ty fmt)) by (by split).
  split.
  - by destruct (GoType_scalars_and_objects _ (Hno "number" "double"))
      as (_ & -> & _).
  - by destruct (GoType_scalars_and_objects _ (Hno "object" ""))
      as (_ & _ & _ & -> & _).
Defined.

Lemma GoType_no_reference_names_witness :
  no_reference (schema_array (Some (schema_type "integer" "")))
  ∧ GoType (schema_array (Some (schema_type "integer" ""))) ≠ "".
Proof.
  assert (Hno : no_reference (schema_array (Some (schema_type "integer" ""))))
    by (by split).
  split; [done |].
  by destruct (GoType_no_reference_names _ Hno) as [Hne _].
Defined.

Lemma GoType_ref_of_name_witness :
  GoType (schema_ref "#/components/schemas/category_cd") = "CategoryCd"
  ∧ GoType (schema_ref "#/components/schemas/") = "".
Proof.
  split.
  - by destruct (GoType_ref_of_name (schema_ref "#/components/schemas/category_cd")
                   "#/components/schemas" "category_cd") as [-> _].
  - by destruct (GoType_ref_of_name (schema_ref "#/components/schemas/")
                   "#/components/schemas" "") as [-> _].
Defined.

(** ** The naming engine: what [toPascalCase] keeps *)

Section pascal_more.
Context `{CaseRanges}.

Ltac each_byte c :=
  destruct c as [[] [] [] [] [] [] [] []]; vm_compute; try reflexivity; try discriminate.

Lemma lower_upper_byte (c : ascii) :
  GoStrings.lower_byte (GoStrings.upper_byte c) = GoStrings.lower_byte c.
Proof. each_byte c. Qed.

Lemma upper_lower_byte (c : ascii) :
  is_lower c = false → GoStrings.upper_byte (GoStrings.lower_byte c) = c.
Proof. each_byte c. Qed.

Lemma lower_byte_is_sep (c : ascii) :
  is_sep_byte c = true → is_upper c = false.
Proof. each_byte c. Qed.

(** The fields of a string of ASCII bytes, put together, are the string
    without its separators. *)
Lemma FieldsFunc_loop_concat (s : string) (start : option string) :
  string_concat (GoStrings.FieldsFunc_loop is_separator (ascii_runes s) start)
  = default "" start +:+ string_filter (λ c, negb (is_sep_byte c)) s.
Proof.
  revert start. induction s as [|c s IH]; intros start.
  - simpl. destruct start; [| done]. simpl. by rewrite !string_app_nil_r.
  - rewrite ascii_runes_cons. simpl. unfold is_sep_byte at 1.
    destruct (is_separator (byte_val c)); simpl.
    + destruct start as [w|]; simpl; by rewrite IH.
    + rewrite IH. destruct start as [w|]; simpl; [| done].
      by rewrite string_app_assoc.
Qed.

Lemma lower_capitalize (w : string) :
  GoStrings.isASCII w = true →
  string_map GoStrings.lower_byte (capitalize w) = string_map GoStrings.lower_byte w.
Proof.
  intros Hw. destruct w as [|c r]; [done |].
  rewrite capitalize_ascii by done. simpl.
  by rewrite lower_upper_byte, string_map_lower_idemp.
Qed.

(** Up to the case of its letters, [toPascalCase] of a string of ASCII bytes
    is the string without its separators. *)
Lemma toPascalCase_lower (s : string) :
  GoStrings.isASCII s = true →
  string_map GoStrings.lower_byte (toPascalCase s)
  = string_map GoStrings.lower_byte (string_filter (λ c, negb (is_sep_byte c)) s).
Proof.
  intros Hs. rewrite toPascalCase_fields.
  pose proof (FieldsFunc_ascii_words s Hs) as Hws.
  unfold GoStrings.FieldsFunc in *. rewrite range_ascii in * by done.
  rewrite <- (string_app_nil_l (string_filter _ s)).
  change "" with (default "" (@None string)).
  rewrite <- FieldsFunc_loop_concat.
  induction Hws as [|w ws Hw _ IH]; [done |].
  rewrite string_concat_map_cons. simpl string_concat.
  rewrite !string_map_app, IH. f_equal. apply lower_capitalize, Hw.
Qed.

Lemma string_map_empty (f : ascii → ascii) (s : string) :
  string_map f s = "" ↔ s = "".
Proof. by destruct s. Qed.

Lemma string_filter_empty (p : ascii → bool) (s : string) :
  string_filter p s = "" ↔ string_forallb (λ c, negb (p c)) s = true.
Proof.
  induction s as [|c s IH]; [done |]. simpl.
  destruct (p c); simpl; [split; done | done].
Qed.

Lemma toPascalCase_ascii_empty (s : string) :
  GoStrings.isASCII s = true →
  toPascalCase s = "" ↔ string_forallb is_sep_byte s = true.
Proof.
  intros Hs. rewrite <- (string_map_empty GoStrings.lower_byte).
  rewrite toPascalCase_lower, string_map_empty, string_filter_empty by done.
  induction s as [|c s IH]; [done |]. simpl.
  rewrite isASCII_cons in Hs. apply andb_true_iff in Hs as [_ Hs].
  rewrite !andb_true_iff, IH, negb_involutive; done.
Qed.

Lemma string_map_length (f : ascii → ascii) (s : string) :
  String.length (string_map f s) = String.length s.
Proof. induction s as [|c s IH]; simpl; [done | by rewrite IH]. Qed.

(** X5: on a string of ASCII bytes, [toPascalCase] drops the separators and
    changes the case of letters, and nothing else: its result, in lower
    case, is the string without separators in lower case.  The result is
    made of ASCII bytes without separators, and it is empty exactly when the
    string has separators only. *)
Theorem toPascalCase_drops_separators (s : string) :
  GoStrings.isASCII s = true →
  string_map GoStrings.lower_byte (toPascalCase s)
  = string_map GoStrings.lower_byte (string_filter (λ c, negb (is_sep_byte c)) s)
  ∧ String.length (toPascalCase s)
    = String.length (string_filter (λ c, negb (is_sep_byte c)) s)
  ∧ GoStrings.isASCII (toPascalCase s) = true
  ∧ string_forallb (λ c, negb (is_sep_byte c)) (toPascalCase s) = true
  ∧ (toPascalCase s = "" ↔ string_forallb is_sep_byte s = true).
Proof.
  intros Hs. pose proof (toPascalCase_lower s Hs) as Hlower.
  split; [done |]. split.
  { by rewrite <- (string_map_length GoStrings.lower_byte), Hlower, string_map_length. }
  rewrite toPascalCase_fields.
  destruct (ascii_concat_capitalize _ (FieldsFunc_ascii_words s Hs)) as [Ha Hsep].
  repeat split; try done.
  - rewrite <- toPascalCase_fields. by apply toPascalCase_ascii_empty.
  - rewrite <- toPascalCase_fields. by apply toPascalCase_ascii_empty.
Qed.

End pascal_more.

Lemma toPascalCase_drops_separators_witness :
  GoStrings.isASCII "get-law_data v2" = true
  ∧ String.length (toPascalCase "get-law_data v2") = 12%nat.
Proof.
  split; [reflexivity |].
  by destruct (toPascalCase_drops_separators "get-law_data v2") as (_ & -> & _).
Defined.

(** ** Method names *)

Section method_names.
Context `{CaseRanges}.

Ltac each_byte c :=
  destruct c as [[] [] [] [] [] [] [] []]; vm_compute; try reflexivity; try discriminate.

Lemma dash_high (c : ascii) :
  (byte_val c <? Utf8.RuneSelf) = false → dash_to_underscore c = c.
Proof. each_byte c. Qed.

Lemma dash_low (c : ascii) :
  (byte_val (dash_to_underscore c) <? Utf8.RuneSelf) = (byte_val c <? Utf8.RuneSelf).
Proof. each_byte c. Qed.

Lemma dash_sep (c : ascii) :
  is_separator (byte_val (dash_to_underscore c)) = is_separator (byte_val c).
Proof. each_byte c. Qed.

Lemma dash_not_sep (c : ascii) :
  is_separator (byte_val c) = false → dash_to_underscore c = c.
Proof. each_byte c. Qed.

Lemma between_high (lo hi : Z) (c : ascii) :
  0x80 ≤ lo → Utf8.between lo hi c = true → dash_to_underscore c = c.
Proof.
  intros Hlo [Hc _]%andb_true_iff. apply dash_high.
  apply Z.ltb_ge. apply Z.leb_le in Hc. unfold Utf8.RuneSelf. lia.
Qed.

Lemma between_dash (lo hi : Z) (c : ascii) :
  0x80 ≤ lo → Utf8.between lo hi (dash_to_underscore c) = Utf8.between lo hi c.
Proof.
  intros Hlo. unfold dash_to_underscore.
  destruct (Ascii.eqb c "-") eqn:Hc; [| done].
  apply Ascii.eqb_eq in Hc as ->. unfold Utf8.between.
  change (byte_val "_") with 95. change (byte_val "-") with 45.
  replace (lo <=? 95) with false by (symmetry; apply Z.leb_gt; lia).
  by replace (lo <=? 45) with false by (symmetry; apply Z.leb_gt; lia).
Qed.

Lemma first_lo (b : Z) (sz : nat) (lo hi : Z) :
  Utf8.first b = Some (sz, lo, hi) → 0x80 ≤ lo.
Proof.
  unfold Utf8.first.
  repeat match goal with
         | |- context [if ?c then _ else _] => destruct c
         end;
    try (intros [= <- <- <-]; lia).
Qed.

Lemma string_drop_map (f : ascii → ascii) (n : nat) (s : string) :
  string_drop n (string_map f s) = string_map f (string_drop n s).
Proof.
  revert s. induction n as [|n IH]; intros [|c s]; simpl; done.
Qed.

(** Decoding a rune after the replacement: the same width, a separator
    exactly when it was one, and the same bytes when it is none. *)
Lemma Decode_dash (s : string) :
  (Utf8.DecodeRuneInString (string_map dash_to_underscore s)).2
  = (Utf8.DecodeRuneInString s).2
  ∧ same_for_fields
      ((Utf8.DecodeRuneInString s).1,
       string_take (Utf8.DecodeRuneInString s).2 s)
      ((Utf8.DecodeRuneInString (string_map dash_to_underscore s)).1,
       string_take (Utf8.DecodeRuneInString (string_map dash_to_underscore s)).2
         (string_map dash_to_underscore s)).
Proof.
  unfold same_for_fields.
  destruct s as [|s0 t0]; [done |]. simpl string_map.
  unfold Utf8.DecodeRuneInString.
  destruct (byte_val s0 <? Utf8.RuneSelf) eqn:H0.
  { rewrite dash_low, H0. simpl. rewrite dash_sep. split; [done |].
    split; [done |]. intros Hsep. by rewrite dash_not_sep. }
  rewrite (dash_high s0 H0), H0.
  destruct (Utf8.first (byte_val s0)) as [[[sz lo] hi]|] eqn:Hfirst; [| done].
  apply first_lo in Hfirst.
  destruct t0 as [|s1 t1]; [done |]. simpl string_map. cbv beta iota.
  rewrite between_dash by done.
  destruct (Utf8.between lo hi s1) eqn:H1; [| done].
  rewrite (between_high lo hi s1) by done. simpl negb. cbv iota.
  destruct (sz <=? 2)%nat; [done |].
  destruct t1 as [|s2 t2]; [done |]. simpl string_map. cbv beta iota.
  rewrite between_dash by done.
  destruct (Utf8.between 128 191 s2) eqn:H2; [| done].
  rewrite (between_high 128 191 s2) by done. simpl negb. cbv iota.
  destruct (sz <=? 3)%nat; [done |].
  destruct t2 as [|s3 t3]; [done |]. simpl string_map. cbv beta iota.
  rewrite between_dash by done.
  destruct (Utf8.between 128 191 s3) eqn:H3; [| done].
  by rewrite (between_high 128 191 s3).
Qed.

Lemma range_loop_dash (fuel : nat) (s : string) :
  Forall2 same_for_fields (Utf8.range_loop fuel s)
    (Utf8.range_loop fuel (string_map dash_to_underscore s)).
Proof.
  revert s. induction fuel as [|fuel IH]; intros s; [constructor |].
  destruct s as [|s0 t0]; [constructor |].
  destruct (Decode_dash (String s0 t0)) as [Hwidth Hsame].
  cbn [Utf8.range_loop string_map] in *.
  destruct (Utf8.DecodeRuneInString (String s0 t0)) as [r n].
  destruct (Utf8.DecodeRuneInString (String (dash_to_underscore s0)
              (string_map dash_to_underscore t0))) as [r' n'].
  simpl in Hwidth. subst n'. constructor; [done |].
  change (String (dash_to_underscore s0) (string_map dash_to_underscore t0))
    with (string_map dash_to_underscore (String s0 t0)).
  rewrite string_drop_map. apply IH.
Qed.

Lemma FieldsFunc_loop_same (rs rs' : list (Z * string)) (start : option string) :
  Forall2 same_for_fields rs rs' →
  GoStrings.FieldsFunc_loop is_separator rs' start
  = GoStrings.FieldsFunc_loop is_separator rs start.
Proof.
  intros Hsame. revert start.
  induction Hsame as [|[r b] [r' b'] rs rs' [Hsep Hbytes] _ IH]; intros start;
    [done |].
  simpl in *. rewrite Hsep. destruct (is_separator r).
  - by rewrite !IH.
  - by rewrite Hbytes, IH.
Qed.

(** The fields of a string do not change when ['-'] is replaced by ['_']. *)
Lemma FieldsFunc_ReplaceAll (s : string) :
  GoStrings.FieldsFunc (GoStrings.ReplaceAll s "-" "_") is_separator
  = GoStrings.FieldsFunc s is_separator.
Proof.
  unfold GoStrings.FieldsFunc, GoStrings.ReplaceAll, Utf8.range.
  rewrite string_map_length. apply FieldsFunc_loop_same, range_loop_dash.
Qed.

Lemma toPascalCase_ReplaceAll (s : string) :
  toPascalCase (GoStrings.ReplaceAll s "-" "_") = toPascalCase s.
Proof. by rewrite !toPascalCase_fields, FieldsFunc_ReplaceAll. Qed.

(** X6: the replacement of ['-'] by ['_'] in [GetMethodName] changes nothing,
    for ['-'] is a separator of [toPascalCase] already: the name of an
    operation with an identifier is the PascalCase of the identifier itself,
    whatever its bytes. *)
Theorem GetMethodName_without_replacement (op : Operation) :
  GetMethodName op
  = if String.eqb (OperationID op) "" then "UnknownOperation"
    else toPascalCase (OperationID op).
Proof.
  unfold GetMethodName. destruct (String.eqb (OperationID op) ""); [done |].
  apply toPascalCase_ReplaceAll.
Qed.

(** X7: the method name is empty exactly when the identifier is not empty and
    has separators only (["-"], ["__"], ...): such an operation does not get
    the name [UnknownOperation]. *)
Theorem GetMethodName_empty (op : Operation) :
  GoStrings.isASCII (OperationID op) = true →
  GetMethodName op = ""
  ↔ OperationID op ≠ "" ∧ string_forallb is_sep_byte (OperationID op) = true.
Proof.
  intros Hascii. unfold GetMethodName.
  destruct (String.eqb_spec (OperationID op) "") as [Heq | Hne]; simpl.
  - split; [done | by intros [? _]].
  - rewrite toPascalCase_ReplaceAll, toPascalCase_ascii_empty by done.
    split; [done | by intros [_ ?]].
Qed.

End method_names.

Lemma GetMethodName_empty_witness :
  GetMethodName (operation_with_id "-_-") = ""
  ∧ GetMethodName (operation_with_id "") = "UnknownOperation".
Proof.
  split; [| reflexivity].
  by apply (GetMethodName_empty (operation_with_id "-_-")).
Defined.

(** ** The naming engine: [toSnakeCase] and [toCamelCase] *)

Section snake_and_camel.
Context `{CaseRanges}.

Ltac each_byte c :=
  destruct c as [[] [] [] [] [] [] [] []]; vm_compute; try reflexivity; try discriminate.

Lemma is_upper_sep (c : ascii) : is_upper c = true → is_sep_byte c = false.
Proof. each_byte c. Qed.

Lemma is_upper_lower (c : ascii) : is_upper c = true → is_lower c = false.
Proof. each_byte c. Qed.

Lemma lower_byte_same (c : ascii) :
  is_upper c = false → GoStrings.lower_byte c = c.
Proof. each_byte c. Qed.

Lemma is_upper_ascii (c : ascii) :
  is_upper c = true → (byte_val c <? Utf8.RuneSelf) = true.
Proof. each_byte c. Qed.

(** The loop of [toSnakeCase] on a string of ASCII bytes. *)
Lemma toSnakeCase_loop_ascii (s : string) (i : nat) (result : string) :
  GoStrings.isASCII s = true →
  toSnakeCase_loop (ascii_runes s) i result = result +:+ snake_raw (i =? 0)%nat s.
Proof.
  revert i result. induction s as [|c s IH]; intros i result Hs.
  - simpl. by rewrite string_app_nil_r.
  - rewrite isASCII_cons in Hs. apply andb_true_iff in Hs as [Hc Hs].
    rewrite ascii_runes_cons. cbn [toSnakeCase_loop snake_raw String.length].
    rewrite IH by done.
    replace (i + 1 =? 0)%nat with false by (symmetry; apply Nat.eqb_neq; lia).
    fold (string_of_byte c). rewrite string_of_byte_ascii by done.
    replace (0 <? i)%nat with (negb (i =? 0)%nat) by (by destruct i).
    fold (is_upper c).
    destruct (negb (i =? 0)%nat && is_upper c); by rewrite !string_app_assoc.
Qed.

Lemma isASCII_snake_raw (start : bool) (s : string) :
  GoStrings.isASCII (snake_raw start s) = GoStrings.isASCII s.
Proof.
  revert start. induction s as [|c s IH]; intros start; [done |]. simpl.
  destruct (negb start && is_upper c); by rewrite !isASCII_cons, ?IH.
Qed.

Lemma toSnakeCase_ascii (s : string) :
  GoStrings.isASCII s = true →
  toSnakeCase s = string_map GoStrings.lower_byte (snake_raw true s).
Proof.
  intros Hs. unfold toSnakeCase. rewrite range_ascii by done.
  rewrite toSnakeCase_loop_ascii by done. rewrite string_app_nil_l.
  apply ToLower_ascii. by rewrite isASCII_snake_raw.
Qed.

Lemma snake_raw_no_upper (start : bool) (s : string) :
  string_forallb (λ c, negb (is_upper c)) s = true → snake_raw start s = s.
Proof.
  revert start. induction s as [|c s IH]; intros start; [done |]. simpl.
  intros [Hc Hs]%andb_true_iff. apply negb_true_iff in Hc.
  by rewrite Hc, andb_false_r, IH.
Qed.

Lemma snake_raw_without_underscores (start : bool) (s : string) :
  string_filter (λ c, negb (Ascii.eqb c "_")) (snake_raw start s)
  = string_filter (λ c, negb (Ascii.eqb c "_")) s.
Proof.
  revert start. induction s as [|c s IH]; intros start; [done |]. simpl.
  destruct (negb start && is_upper c); simpl; by rewrite IH.
Qed.

Lemma string_filter_map_lower (s : string) :
  string_filter (λ c, negb (Ascii.eqb c "_")) (string_map GoStrings.lower_byte s)
  = string_map GoStrings.lower_byte (string_filter (λ c, negb (Ascii.eqb c "_")) s).
Proof.
  induction s as [|c s IH]; [done |]. simpl.
  replace (Ascii.eqb (GoStrings.lower_byte c) "_") with (Ascii.eqb c "_")
    by (clear; each_byte c).
  destruct (Ascii.eqb c "_"); simpl; by rewrite IH.
Qed.

(** X8: on a string of ASCII bytes, [toSnakeCase] adds underscores and puts
    letters in lower case, and nothing else; its result has no upper-case
    letter; it leaves a string without upper-case letter as it is, and so
    applying it twice is applying it once. *)
Theorem toSnakeCase_ascii_spec (s : string) :
  GoStrings.isASCII s = true →
  string_filter (λ c, negb (Ascii.eqb c "_")) (toSnakeCase s)
  = string_map GoStrings.lower_byte (string_filter (λ c, negb (Ascii.eqb c "_")) s)
  ∧ string_forallb (λ c, negb (is_upper c)) (toSnakeCase s) = true
  ∧ (string_forallb (λ c, negb (is_upper c)) s = true → toSnakeCase s = s)
  ∧ toSnakeCase (toSnakeCase s) = toSnakeCase s.
Proof.
  intros Hs.
  assert (Hfix : ∀ t, GoStrings.isASCII t = true →
            string_forallb (λ c, negb (is_upper c)) t = true → toSnakeCase t = t).
  { intros t Ht Hno. rewrite toSnakeCase_ascii, snake_raw_no_upper by done.
    by apply string_map_lower_fixed. }
  assert (Hno : string_forallb (λ c, negb (is_upper c)) (toSnakeCase s) = true).
  { rewrite toSnakeCase_ascii by done. apply no_upper_map_lower. }
  repeat split; try done.
  - rewrite toSnakeCase_ascii by done.
    by rewrite string_filter_map_lower, snake_raw_without_underscores.
  - by apply Hfix.
  - apply Hfix; [| done]. rewrite toSnakeCase_ascii by done.
    by rewrite isASCII_map_lower, isASCII_snake_raw.
Qed.

(** The fields of the snake form of a run of ASCII bytes without separator,
    capitalized and put together again, are the run: a field ends before
    each upper-case letter, which [capitalize] restores. *)
Lemma capitalize_snake_fields (t w : string) :
  GoStrings.isASCII t = true →
  string_forallb (λ c, negb (is_sep_byte c)) t = true →
  GoStrings.isASCII w = true → w ≠ "" →
  string_concat (map capitalize
    (GoStrings.FieldsFunc_loop is_separator
       (ascii_runes (string_map GoStrings.lower_byte (snake_raw false t)))
       (Some w)))
  = capitalize w +:+ t.
Proof.
  revert w. induction t as [|c t IH]; intros w Ht Hsep Hw Hne.
  - simpl. by rewrite !string_app_nil_r.
  - rewrite isASCII_cons in Ht. apply andb_true_iff in Ht as [Hc Ht].
    simpl in Hsep. apply andb_true_iff in Hsep as [Hcs Hsep].
    apply negb_true_iff in Hcs.
    assert (Hlsep : is_separator (byte_val (GoStrings.lower_byte c)) = false)
      by (by rewrite <- lower_byte_sep in Hcs).
    cbn [snake_raw negb andb].
    destruct (is_upper c) eqn:Hup.
    + cbn [string_map]. rewrite !ascii_runes_cons.
      cbn [GoStrings.FieldsFunc_loop].
      change (is_separator (byte_val (GoStrings.lower_byte "_"))) with true.
      cbv iota. rewrite Hlsep.
      rewrite string_concat_map_cons, IH; try done.
      * rewrite capitalize_ascii by (by rewrite isASCII_cons, lower_byte_ascii, Hc).
        by rewrite upper_lower_byte by (by apply is_upper_lower).
      * by rewrite isASCII_cons, lower_byte_ascii, Hc.
    + cbn [string_map]. rewrite ascii_runes_cons.
      cbn [GoStrings.FieldsFunc_loop]. rewrite Hlsep.
      rewrite lower_byte_same by done. rewrite IH; try done.
      * destruct w as [|w0 w]; [done |].
        rewrite string_app_cons, !capitalize_ascii.
        -- rewrite string_map_app. simpl string_map.
           rewrite lower_byte_same by done.
           by rewrite !string_app_cons, string_app_assoc.
        -- done.
        -- rewrite <- string_app_cons, isASCII_app, Hw, isASCII_cons, Hc. done.
      * by rewrite isASCII_app, Hw, isASCII_cons, Hc.
      * by destruct w.
Qed.

(** X9: round trip: [toPascalCase] undoes [toSnakeCase] on a string of ASCII
    bytes that has no separator and does not begin with a lower-case
    letter, such as a Go type name. *)
Theorem toPascalCase_toSnakeCase (s : string) :
  GoStrings.isASCII s = true →
  string_forallb (λ c, negb (is_sep_byte c)) s = true →
  match s with EmptyString => True | String c _ => is_lower c = false end →
  toPascalCase (toSnakeCase s) = s.
Proof.
  intros Hs Hsep Hfirst. rewrite toSnakeCase_ascii by done.
  rewrite toPascalCase_fields. unfold GoStrings.FieldsFunc.
  rewrite range_ascii by (by rewrite isASCII_map_lower, isASCII_snake_raw).
  destruct s as [|c s]; [done |].
  rewrite isASCII_cons in Hs. apply andb_true_iff in Hs as [Hc Hs].
  simpl in Hsep. apply andb_true_iff in Hsep as [Hcs Hsep].
  apply negb_true_iff in Hcs.
  cbn [snake_raw negb andb string_map]. rewrite ascii_runes_cons.
  cbn [GoStrings.FieldsFunc_loop].
  replace (is_separator (byte_val (GoStrings.lower_byte c))) with false
    by (by rewrite <- lower_byte_sep in Hcs).
  rewrite capitalize_snake_fields; try done.
  - rewrite capitalize_ascii by (by rewrite isASCII_cons, lower_byte_ascii, Hc).
    by rewrite upper_lower_byte.
  - by rewrite isASCII_cons, lower_byte_ascii, Hc.
Qed.

Lemma ToLower_string_of_byte (c : ascii) :
  (byte_val c <? Utf8.RuneSelf) = true →
  GoStrings.ToLower (string_of_byte c) = String (GoStrings.lower_byte c) "".
Proof.
  intros Hc. rewrite string_of_byte_ascii by done.
  rewrite ToLower_ascii; [done |]. by rewrite isASCII_cons, Hc.
Qed.

Lemma toCamelCase_ascii (s : string) :
  GoStrings.isASCII s = true →
  toCamelCase s
  = match toPascalCase s with
    | EmptyString => ""
    | String c rest => String (GoStrings.lower_byte c) rest
    end.
Proof.
  intros Hs. unfold toCamelCase.
  destruct (String.eqb_spec s "") as [-> | Hne]; [done |].
  assert (Hp : GoStrings.isASCII (toPascalCase s) = true).
  { rewrite toPascalCase_fields.
    by destruct (ascii_concat_capitalize _ (FieldsFunc_ascii_words s Hs)). }
  destruct (toPascalCase s) as [|c rest]; [done |].
  rewrite isASCII_cons in Hp. apply andb_true_iff in Hp as [Hc _].
  by rewrite ToLower_string_of_byte.
Qed.

(** X10: on a string of ASCII bytes, [toCamelCase] is [toPascalCase] but for the
    case of the first byte, which is not an upper-case letter: the same
    length, the same bytes after the first, the same letters. *)
Theorem toCamelCase_first_byte (s : string) :
  GoStrings.isASCII s = true →
  String.length (toCamelCase s) = String.length (toPascalCase s)
  ∧ string_drop 1 (toCamelCase s) = string_drop 1 (toPascalCase s)
  ∧ string_map GoStrings.lower_byte (toCamelCase s)
    = string_map GoStrings.lower_byte (toPascalCase s)
  ∧ match toCamelCase s with
    | EmptyString => toPascalCase s = ""
    | String c _ => is_upper c = false
    end.
Proof.
  intros Hs. rewrite toCamelCase_ascii by done.
  destruct (toPascalCase s) as [|c rest]; [done |].
  simpl. rewrite lower_byte_idemp, lower_byte_not_upper. done.
Qed.

End snake_and_camel.

Lemma toSnakeCase_ascii_spec_witness :
  GoStrings.isASCII "HTTPCode" = true ∧ toSnakeCase "HTTPCode" = "h_t_t_p_code"
  ∧ toSnakeCase (toSnakeCase "HTTPCode") = toSnakeCase "HTTPCode".
Proof.
  split; [reflexivity |]. split; [reflexivity |].
  by destruct (toSnakeCase_ascii_spec "HTTPCode") as (_ & _ & _ & ->).
Defined.

Lemma toPascalCase_toSnakeCase_witness :
  toSnakeCase "LawNumEra" = "law_num_era"
  ∧ toPascalCase (toSnakeCase "LawNumEra") = "LawNumEra".
Proof.
  split; [reflexivity |].
  by apply (toPascalCase_toSnakeCase "LawNumEra").
Defined.

Lemma toCamelCase_first_byte_witness :
  toCamelCase "law_num_era" = "lawNumEra"
  ∧ String.length (toCamelCase "law_num_era") = String.length (toPascalCase "law_num_era").
Proof.
  split; [reflexivity |].
  by destruct (toCamelCase_first_byte "law_num_era") as [-> _].
Defined.

(** ** The success response of an operation *)

Section success_response.

Lemma elem_of_range_items {V} (order : list string → list string)
    (m : gmap string V) (code : string) (v : V) :
  rearranges order → (code, v) ∈ range_items order m ↔ m !! code = Some v.
Proof.
  intros Horder. unfold range_items, range_keys. rewrite list_elem_of_omap. split.
  - intros (k & _ & Hk). destruct (m !! k) eqn:Hm; [| done].
    simpl in Hk. by injection Hk as -> ->.
  - intros Hm. exists code. split; [| by rewrite Hm].
    rewrite (Horder _). apply list_elem_of_fmap. exists (code, v).
    split; [done |]. by apply elem_of_map_to_list.
Qed.

Lemma GetSuccessResponse_loop_None (items : list (string * Response)) :
  GetSuccessResponse_loop items = None
  ↔ ∀ code response, (code, response) ∈ items → GoStrings.HasPrefix code "2" = false.
Proof.
  induction items as [|[code response] items IH]; simpl.
  - split; [| done]. by intros _ ? ? ?%elem_of_nil.
  - destruct (GoStrings.HasPrefix code "2") eqn:Hcode.
    + split; [done |]. intros Hall.
      rewrite (Hall code response) in Hcode; [done | by left].
    + rewrite IH. split.
      * intros Hall code' response' [[= -> ->] | Hin]%elem_of_cons; eauto.
      * intros Hall code' response' Hin. apply (Hall code' response'). by right.
Qed.

Lemma GetSuccessResponse_loop_Some (items : list (string * Response))
    (response : Response) :
  GetSuccessResponse_loop items = Some response →
  ∃ code, (code, response) ∈ items ∧ GoStrings.HasPrefix code "2" = true.
Proof.
  induction items as [|[code r] items IH]; simpl; [done |].
  destruct (GoStrings.HasPrefix code "2") eqn:Hcode.
  - intros [= ->]. exists code. split; [by left | done].
  - intros (code' & Hin & Hcode')%IH. exists code'. split; [by right | done].
Qed.

(** X11: [GetSuccessResponse] returns [nil] exactly when no response code begins
    with [2]; what it returns otherwise is the response of a code that
    begins with [2]; and when one code only begins with [2], it returns the
    response of that code, whatever the order in which the map is visited. *)
Theorem GetSuccessResponse_spec (order : list string → list string)
    (op : Operation) :
  rearranges order →
  (GetSuccessResponse order op = None
   ↔ ∀ code response, Responses op !! code = Some response →
       GoStrings.HasPrefix code "2" = false)
  ∧ (∀ response, GetSuccessResponse order op = Some response →
       ∃ code, GoStrings.HasPrefix code "2" = true
               ∧ Responses op !! code = Some response)
  ∧ (∀ code response,
       Responses op !! code = Some response →
       GoStrings.HasPrefix code "2" = true →
       (∀ code', is_Some (Responses op !! code') →
          GoStrings.HasPrefix code' "2" = true → code' = code) →
       GetSuccessResponse order op = Some response).
Proof.
  intros Horder. unfold GetSuccessResponse.
  assert (Hnone : GetSuccessResponse_loop (range_items order (Responses op)) = None
    ↔ ∀ code response, Responses op !! code = Some response →
        GoStrings.HasPrefix code "2" = false).
  { rewrite GetSuccessResponse_loop_None. split.
    - intros Hall code response Hm. apply (Hall code response).
      by apply elem_of_range_items.
    - intros Hall code response Hin. apply (Hall code response).
      by apply elem_of_range_items in Hin. }
  assert (Hsome : ∀ response,
    GetSuccessResponse_loop (range_items order (Responses op)) = Some response →
    ∃ code, GoStrings.HasPrefix code "2" = true
            ∧ Responses op !! code = Some response).
  { intros response (code & Hin & Hcode)%GetSuccessResponse_loop_Some.
    exists code. split; [done |]. by apply elem_of_range_items in Hin. }
  split; [done |]. split; [done |].
  intros code response Hm Hcode Honly.
  destruct (GetSuccessResponse_loop (range_items order (Responses op)))
    as [response'|] eqn:Hloop.
  - destruct (Hsome response' eq_refl) as (code' & Hcode' & Hm').
    rewrite (Honly code') in Hm' by eauto. congruence.
  - rewrite (proj1 Hnone eq_refl code response Hm) in Hcode. done.
Qed.

Lemma first_visited_rearranges (code : string) : rearranges (first_visited code).
Proof. intros l. apply filter_app_complement. Qed.

Lemma GetSuccessResponse_first_visited (op : Operation) (code : string)
    (response : Response) :
  Responses op !! code = Some response → GoStrings.HasPrefix code "2" = true →
  GetSuccessResponse (first_visited code) op = Some response.
Proof.
  intros Hm Hcode. unfold GetSuccessResponse, range_items, range_keys, first_visited.
  assert (Hin : code ∈ filter (λ k, k = code) (map_to_list (Responses op)).*1).
  { apply list_elem_of_filter. split; [done |]. apply list_elem_of_fmap.
    exists (code, response). split; [done |]. by apply elem_of_map_to_list. }
  destruct (filter (λ k, k = code) (map_to_list (Responses op)).*1)
    as [|k ks] eqn:Hfilter; [by apply elem_of_nil in Hin |].
  assert (k = code) as ->.
  { assert (Hk : k ∈ filter (λ k, k = code) (map_to_list (Responses op)).*1)
      by (rewrite Hfilter; by left).
    by apply list_elem_of_filter in Hk as [-> _]. }
  simpl. rewrite Hm. simpl. by rewrite Hcode.
Qed.

(** X12: when two codes that begin with [2] have different responses, the
    response that [GetSuccessResponse] returns depends on the order in which
    the runtime visits the map: each of the two is returned for some
    order. *)
Theorem GetSuccessResponse_depends_on_order (op : Operation)
    (code1 code2 : string) (response1 response2 : Response) :
  Responses op !! code1 = Some response1 →
  Responses op !! code2 = Some response2 →
  GoStrings.HasPrefix code1 "2" = true → GoStrings.HasPrefix code2 "2" = true →
  response1 ≠ response2 →
  ∃ order1 order2,
    rearranges order1 ∧ rearranges order2
    ∧ GetSuccessResponse order1 op = Some response1
    ∧ GetSuccessResponse order2 op = Some response2
    ∧ GetSuccessResponse order1 op ≠ GetSuccessResponse order2 op.
Proof.
  intros Hm1 Hm2 Hcode1 Hcode2 Hne.
  exists (first_visited code1), (first_visited code2).
  rewrite (GetSuccessResponse_first_visited op code1 response1) by done.
  rewrite (GetSuccessResponse_first_visited op code2 response2) by done.
  repeat split; try apply first_visited_rearranges. congruence.
Qed.

End success_response.

Lemma GetSuccessResponse_spec_witness :
  rearranges reverse
  ∧ GetSuccessResponse reverse
      (mkOperation "x" "" "" [] [] None
         (<["200" := mkResponse "ok" ∅]> (<["404" := mkResponse "no" ∅]> ∅)))
    = Some (mkResponse "ok" ∅).
Proof.
  assert (Hrev : rearranges reverse) by (intros l; apply reverse_Permutation).
  split; [done |].
  destruct (GetSuccessResponse_spec reverse
              (mkOperation "x" "" "" [] [] None
                 (<["200" := mkResponse "ok" ∅]> (<["404" := mkResponse "no" ∅]> ∅)))
              Hrev) as (_ & _ & Honly).
  apply (Honly "200"); [done | done |].
  intros code' [r Hr] Hcode'. simpl in Hr.
  destruct (decide (code' = "200")) as [-> | Hne]; [done |].
  rewrite lookup_insert_ne in Hr by done.
  destruct (decide (code' = "404")) as [-> | Hne']; [done |].
  by rewrite lookup_insert_ne in Hr.
Defined.

Lemma GetSuccessResponse_depends_on_order_witness :
  ∃ order1 order2,
    rearranges order1 ∧ rearranges order2
    ∧ GetSuccessResponse order1 sample_operation = Some (mkResponse "ok" ∅)
    ∧ GetSuccessResponse order2 sample_operation = Some (mkResponse "partial" ∅)
    ∧ GetSuccessResponse order1 sample_operation
      ≠ GetSuccessResponse order2 sample_operation.
Proof.
  by apply (GetSuccessResponse_depends_on_order sample_operation "200" "206").
Defined.

(** ** The generated client: results, URLs and escaping *)

Section client_more.
Import Url Http LawApi.
Context `{Net, TypesGo}.

Lemma error_kind_result {T} (kind detail : string) :
  kind ∈ error_kinds → @value_or_error T (None, Some (kind +:+ detail)).
Proof. intros Hkind. right. by exists kind, detail. Qed.

Lemma read_string_value_or_error (resp : Response) :
  value_or_error (read_string resp).
Proof.
  unfold read_string. simpl. destruct (read_err (Body resp)).
  - apply error_kind_result. by repeat constructor.
  - left. by eexists.
Qed.

Lemma read_json_value_or_error {T} `{JsonDecodable T} (resp : Response) :
  value_or_error (@read_json T _ resp).
Proof.
  unfold read_json. destruct (Decode (Body resp)).
  - apply error_kind_result. by repeat constructor.
  - left. by eexists.
Qed.

Lemma execute_value_or_error {T} (c : Client) (urlPath : string)
    (read : Response → option T * option error) :
  (∀ resp, value_or_error (read resp)) → value_or_error (execute c urlPath read).
Proof.
  intros Hread. unfold execute.
  destruct (NewRequest "GET" urlPath) as [err | req].
  { apply error_kind_result. by repeat constructor. }
  destruct (Do (httpClient c) req) as [err | resp].
  { apply error_kind_result. by repeat constructor. }
  destruct (400 <=? StatusCode resp); [| apply Hread]. simpl.
  apply error_kind_result. by repeat constructor.
Qed.

(** X13: every method returns a value and no error, or no value and an error,
    never both and never neither, whatever the network does; the message of
    the error begins with one of five fixed texts. *)
Theorem methods_return_value_or_error (c : Client) :
  (∀ lawRevisionId params, value_or_error (GetAttachment c lawRevisionId params))
  ∧ (∀ params, value_or_error (GetKeyword c params))
  ∧ (∀ lawIdOrNumOrRevisionId params,
       value_or_error (GetLawData c lawIdOrNumOrRevisionId params))
  ∧ (∀ lawIdOrNumOrRevisionId fileType params,
       value_or_error (GetLawFile c lawIdOrNumOrRevisionId fileType params))
  ∧ (∀ lawIdOrNum params, value_or_error (GetRevisions c lawIdOrNum params))
  ∧ (∀ params, value_or_error (GetLaws c params)).
Proof.
  repeat apply conj; intros; apply execute_value_or_error;
    first [apply read_string_value_or_error | apply read_json_value_or_error].
Qed.

Lemma execute_read_string (c : Client) (urlPath : string) (resp : Response)
    (body : string) :
  answers c urlPath resp →
  execute c urlPath read_string = (Some body, None)
  ↔ StatusCode resp < 400 ∧ read_bytes (Body resp) = body
    ∧ read_err (Body resp) = None.
Proof.
  intros (req & Hreq & Hdo). unfold execute. rewrite Hreq, Hdo.
  destruct (400 <=? StatusCode resp) eqn:Hcode.
  - apply Z.leb_le in Hcode. simpl. split; [done | lia].
  - apply Z.leb_gt in Hcode. unfold read_string. simpl.
    destruct (read_err (Body resp)).
    + split; [done | by intros (_ & _ & ?)].
    + split; [by intros [= <-] | by intros (_ & <- & _)].
Qed.

(** X14: [GetAttachment] and [GetLawFile] return the body exactly as it was read,
    and they do so exactly when the status code is below 400 (a 1xx or 3xx
    answer counts as a success) and the body was read without error. *)
Theorem body_returned_unchanged (c : Client) (resp : Response) (body : string) :
  (∀ lawRevisionId params,
     answers c (GetAttachment_url c lawRevisionId params) resp →
     GetAttachment c lawRevisionId params = (Some body, None)
     ↔ StatusCode resp < 400 ∧ read_bytes (Body resp) = body
       ∧ read_err (Body resp) = None)
  ∧ (∀ lawIdOrNumOrRevisionId fileType params,
     answers c (GetLawFile_url c lawIdOrNumOrRevisionId fileType params) resp →
     GetLawFile c lawIdOrNumOrRevisionId fileType params = (Some body, None)
     ↔ StatusCode resp < 400 ∧ read_bytes (Body resp) = body
       ∧ read_err (Body resp) = None).
Proof. split; intros; by apply execute_read_string. Qed.

Lemma Encode_single (key value : string) :
  Encode (<[key := [value]]> ∅) = query_pair (QueryEscape key) value.
Proof.
  rewrite Encode_joined. unfold Encode_pairs.
  rewrite insert_empty, map_to_list_singleton. simpl.
  change (sort_Strings [key]) with [key]. simpl.
  by rewrite lookup_singleton_eq.
Qed.

Lemma GetAttachment_url_form (c : Client) (lawRevisionId : string)
    (params : option GetAttachmentParams.t) :
  GetAttachment_url c lawRevisionId params
  = baseURL c +:+ "/attachment/" +:+ lawRevisionId
      +:+ match params ≫= GetAttachmentParams.Src with
          | Some src => "?src=" +:+ QueryEscape src
          | None => ""
          end.
Proof.
  destruct params as [[[src|]]|]; unfold GetAttachment_url; simpl;
    rewrite ?string_app_nil_r; try done.
  unfold GetAttachment_query, with_query, set_field, Set_.
  cbn [GetAttachmentParams.Src].
  rewrite Encode_single, insert_empty, map_size_singleton. simpl.
  by rewrite !string_app_assoc.
Qed.

Lemma GetLawFile_url_form (c : Client) (lawIdOrNumOrRevisionId fileType : string)
    (params : option GetLawFileParams.t) :
  GetLawFile_url c lawIdOrNumOrRevisionId fileType params
  = baseURL c +:+ "/law_file/" +:+ fileType +:+ "/" +:+ lawIdOrNumOrRevisionId
      +:+ match params ≫= GetLawFileParams.Asof with
          | Some asof => "?asof=" +:+ QueryEscape (Sprintf_v asof)
          | None => ""
          end.
Proof.
  destruct params as [[[asof|]]|]; unfold GetLawFile_url; simpl;
    rewrite ?string_app_nil_r; try done.
  unfold GetLawFile_query, with_query, set_field, Set_.
  cbn [GetLawFileParams.Asof].
  rewrite Encode_single, insert_empty, map_size_singleton. simpl.
  by rewrite !string_app_assoc.
Qed.

(** X15: the URLs of [GetAttachment] and [GetLawFile]: the path parameters are
    put in the path as they are, without escaping ([fileType] before the
    law identifier), and the query is there only when the field is set, with
    its value escaped. *)
Theorem path_and_query_of_url (c : Client) :
  (∀ lawRevisionId params,
     GetAttachment_url c lawRevisionId params
     = baseURL c +:+ "/attachment/" +:+ lawRevisionId
         +:+ match params ≫= GetAttachmentParams.Src with
             | Some src => "?src=" +:+ QueryEscape src
             | None => ""
             end)
  ∧ (∀ lawIdOrNumOrRevisionId fileType params,
     GetLawFile_url c lawIdOrNumOrRevisionId fileType params
     = baseURL c +:+ "/law_file/" +:+ fileType +:+ "/" +:+ lawIdOrNumOrRevisionId
         +:+ match params ≫= GetLawFileParams.Asof with
             | Some asof => "?asof=" +:+ QueryEscape (Sprintf_v asof)
             | None => ""
             end).
Proof.
  split; intros; [apply GetAttachment_url_form | apply GetLawFile_url_form].
Qed.

Ltac each_byte c :=
  destruct c as [[] [] [] [] [] [] [] []].

Lemma QueryEscape_safe (s : string) :
  string_forallb query_safe (QueryEscape s) = true.
Proof. induction s as [|c s IH]; [done |]. each_byte c; exact IH. Qed.

Lemma unescape_QueryEscape (s : string) : unescape_query (QueryEscape s) = s.
Proof.
  induction s as [|c s IH]; [done |].
  each_byte c; exact (f_equal (String _) IH).
Qed.

(** X16: the value of [src] is escaped into unreserved characters, ['+'] and
    ['%'] only, so that it cannot end the pair or the query, and nothing of
    it is lost: unescaping gives the value back, and two values give the
    same URL only if they are the same. *)
Theorem src_is_escaped (c : Client) (lawRevisionId src : string) :
  (∃ q,
     GetAttachment_url c lawRevisionId
       (Some (GetAttachmentParams.mk (Some src)))
     = baseURL c +:+ "/attachment/" +:+ lawRevisionId +:+ "?src=" +:+ q
     ∧ string_forallb query_safe q = true
     ∧ unescape_query q = src)
  ∧ (∀ src',
       GetAttachment_url c lawRevisionId
         (Some (GetAttachmentParams.mk (Some src)))
       = GetAttachment_url c lawRevisionId
           (Some (GetAttachmentParams.mk (Some src'))) →
       src = src').
Proof.
  split.
  - exists (QueryEscape src). rewrite GetAttachment_url_form. simpl.
    split; [done |]. split; [apply QueryEscape_safe | apply unescape_QueryEscape].
  - intros src'. rewrite !GetAttachment_url_form. simpl.
    intros Heq. do 3 apply (inj (String.append _)) in Heq.
    rewrite <- (unescape_QueryEscape src), <- (unescape_QueryEscape src').
    f_equal. by simplify_eq.
Qed.

Ltac other_keys :=
  repeat first
    [ rewrite lookup_set_field_ne by done
    | rewrite lookup_add_field_ne by done
    | rewrite lookup_Set_ne by done ].


Lemma GetLawData_query_encoded (params : GetLawDataParams.t) :
  let pairs := omap id
    [field_pair "asof" (GetLawDataParams.Asof params);
     field_pair "elm" (GetLawDataParams.Elm params);
     field_pair "include_attached_file_content"
       (GetLawDataParams.IncludeAttachedFileContent params);
     field_pair "law_full_text_format" (GetLawDataParams.LawFullTextFormat params);
     field_pair "omit_amendment_suppl_provision"
       (GetLawDataParams.OmitAmendmentSupplProvision params);
     field_pair "response_format" (GetLawDataParams.ResponseFormat params)] in
  Encode (GetLawData_query params) = String.concat "&" pairs
  ∧ size (GetLawData_query params) = List.length pairs.
Proof.
  intros pairs. rewrite Encode_joined.
  enough (Encode_pairs (GetLawData_query params) = pairs
          ∧ size (GetLawData_query params) = List.length pairs)
    as [-> ->] by done.
  subst pairs.
  destruct params as [[a|] [b|] [e|] [d|] [f|] [g|]];
    (split; [| by vm_compute]);
    unfold Encode_pairs, GetLawData_query, set_field, field_pair;
    cbn [GetLawDataParams.Asof GetLawDataParams.Elm
         GetLawDataParams.IncludeAttachedFileContent
         GetLawDataParams.LawFullTextFormat
         GetLawDataParams.OmitAmendmentSupplProvision
         GetLawDataParams.ResponseFormat fmap option_fmap option_map];
    repeat match goal with
           | |- context [query_pair ?k (Sprintf_v ?x)] =>
               lazymatch k with
               | QueryEscape _ => fail
               | _ => change (query_pair k (Sprintf_v x))
                        with (query_pair (QueryEscape k) (Sprintf_v x))
               end
           end;
    generalize query_pair; generalize QueryEscape; intros esc pair;
    by vm_compute.
Qed.

(** X18: the query of [GetLawData] holds the pairs of the fields that are set and
    no other, in the order of their keys, not in the order of the fields of
    the struct; without a field set, the URL has no query. *)
Theorem GetLawData_query_in_key_order (c : Client)
    (lawIdOrNumOrRevisionId : string) (params : GetLawDataParams.t) :
  let pairs := omap id
    [field_pair "asof" (GetLawDataParams.Asof params);
     field_pair "elm" (GetLawDataParams.Elm params);
     field_pair "include_attached_file_content"
       (GetLawDataParams.IncludeAttachedFileContent params);
     field_pair "law_full_text_format" (GetLawDataParams.LawFullTextFormat params);
     field_pair "omit_amendment_suppl_provision"
       (GetLawDataParams.OmitAmendmentSupplProvision params);
     field_pair "response_format" (GetLawDataParams.ResponseFormat params)] in
  GetLawData_url c lawIdOrNumOrRevisionId (Some params)
  = baseURL c +:+ "/law_data/" +:+ lawIdOrNumOrRevisionId
      +:+ match pairs with
          | [] => ""
          | _ :: _ => "?" +:+ String.concat "&" pairs
          end.
Proof.
  intros pairs. destruct (GetLawData_query_encoded params) as [Hencode Hsize].
  fold pairs in Hencode, Hsize.
  unfold GetLawData_url, with_query. rewrite Hencode, Hsize.
  destruct pairs; simpl;
    [by rewrite string_app_nil_r | by rewrite !string_app_assoc].
Qed.

End client_more.

Lemma src_is_escaped_example :
  LawApi.GetAttachment_url
    (sample_client (Http.mkResponse 200 (Http.mkReader "" None))) "H11HO127"
    (Some (LawApi.GetAttachmentParams.mk (Some "./pict/a b.jpg?x=1&y")))
  = "https://laws.e-gov.go.jp/api/2/attachment/H11HO127?src=.%2Fpict%2Fa+b.jpg%3Fx%3D1%26y".
Proof. by vm_compute. Qed.
